(** * LoadBalancer router service of kubernetes-router

    A shallow embedding of [kubernetes/loadbalancer.go] (package
    [kubernetes]) and a verification of its behaviour: readiness check,
    address lookup, option catalog, label merging, port resolution, the
    sync engine and the swap protocol.

    Conventions of the embedding:
    - Go's [int] is 64 bits wide; [int] and [int32] values are [Z], and
      the conversion [int32(x)] is written out as a wrap-around.
    - Go maps are [gmap]s; a nil map behaves as the empty map for every
      read the code performs.  The order of a [range] over a map is not
      specified by Go: loops over maps are folds over a list of entries,
      run on [map_to_list], and lemmas show which results do not depend on
      the order chosen; a statement about a result that does depend on it
      is made for an arbitrary order, or under the condition that makes
      all orders agree.
    - The collaborators of the service that perform I/O (cluster client,
      application and namespace lookup, backend-service lookup) are
      requests of a small free monad [Prog]; a run against an arbitrary
      handler yields the returned value, the final world and the trace of
      requests with their responses.
    - Objects reached through pointers and mutated in place (the two
      services of a swap, the port entries of the backend service) are
      passed explicitly: a function that mutates its argument returns the
      object's new contents. *)

From Stdlib Require Import Ascii String.
From stdpp Require Import gmap strings list fin_maps pretty sorting.


(** ** Go standard library: strconv, fmt, integer conversions *)

(** [int32(x)] for an [int] [x]: keep the low 32 bits, two's complement. *)
Definition int32 (x : Z) : Z := ((x + 2 ^ 31) `mod` 2 ^ 32 - 2 ^ 31)%Z.

Module strconv.

Inductive NumError := ErrSyntax | ErrRange.

Definition is_digit (c : ascii) : bool :=
  (48 <=? nat_of_ascii c)%nat && (nat_of_ascii c <=? 57)%nat.

Definition digit_val (c : ascii) : Z := (Z.of_nat (nat_of_ascii c) - 48)%Z.

Definition maxUint64 : Z := (2 ^ 64 - 1)%Z.

(** The digit loop of [ParseUint(s, 10, 64)].  In base 10 every byte that
    is not a decimal digit (letters, underscore, sign) is a syntax error;
    overflow stops the loop at once with the largest value. *)
Fixpoint ParseUint_loop (s : string) (n : Z) : Z * option NumError :=
  match s with
  | EmptyString => (n, None)
  | String c s' =>
      if is_digit c then
        if (maxUint64 `div` 10 + 1 <=? n)%Z then (maxUint64, Some ErrRange)
        else
          let n1 := (n * 10 + digit_val c)%Z in
          if (maxUint64 <? n1)%Z then (maxUint64, Some ErrRange)
          else ParseUint_loop s' n1
      else (0%Z, Some ErrSyntax)
  end.

Definition ParseUint (s : string) : Z * option NumError :=
  match s with
  | EmptyString => (0%Z, Some ErrSyntax)
  | _ => ParseUint_loop s 0
  end.

(** [ParseInt(s, 10, 0)]: optional sign, then [ParseUint]; a value that
    does not fit in 64 bits is clamped and reported as a range error. *)
Definition ParseInt (s : string) : Z * option NumError :=
  match s with
  | EmptyString => (0%Z, Some ErrSyntax)
  | String c rest =>
      let neg := Ascii.eqb c "-" in
      let body := if Ascii.eqb c "+" || Ascii.eqb c "-" then rest else s in
      let '(un, err) := ParseUint body in
      match err with
      | Some ErrSyntax => (0%Z, Some ErrSyntax)
      | _ =>
          let cutoff := (2 ^ 63)%Z in
          if negb neg && (cutoff <=? un)%Z then ((cutoff - 1)%Z, Some ErrRange)
          else if neg && (cutoff <? un)%Z then ((- cutoff)%Z, Some ErrRange)
          else ((if neg then - un else un)%Z, None)
      end
  end.

(** [Atoi]: its fast path (fewer than 19 bytes) computes the same result
    as [ParseInt], which is the slow path. *)
Definition Atoi (s : string) : Z * option NumError := ParseInt s.

Definition ParseBool (s : string) : bool * option NumError :=
  if bool_decide (s ∈ ["1"; "t"; "T"; "TRUE"; "true"; "True"]) then (true, None)
  else if bool_decide (s ∈ ["0"; "f"; "F"; "FALSE"; "false"; "False"]) then (false, None)
  else (false, Some ErrSyntax).

End strconv.

Module fmt.
(** The verb [%d] on an integer. *)
Definition d (x : Z) : string := pretty x.
End fmt.

(** ** Kubernetes API types (the fields the service reads or writes) *)

Module metav1.
Record ObjectMeta := {
  Name : string;
  Namespace : string;
  Labels : gmap string string;
  Annotations : gmap string string;
}.
End metav1.

Module intstr.
Inductive IntOrString := IntVal (i : Z) | StrVal (s : string).
Definition FromInt (val : Z) : IntOrString := IntVal (int32 val).
End intstr.

Module v1.
Record ServicePort := {
  Name : string;
  Protocol : string;
  Port : Z;
  TargetPort : intstr.IntOrString;
  NodePort : Z;
}.

Record ServiceSpec := {
  Type_ : string;
  Selector : gmap string string;
  Ports : list ServicePort;
}.

Record LoadBalancerIngress := { IP : string; Hostname : string }.
Record LoadBalancerStatus := { Ingress : list LoadBalancerIngress }.
Record ServiceStatus := { LoadBalancer : LoadBalancerStatus }.

Record Service := {
  ObjectMeta : metav1.ObjectMeta;
  Spec : ServiceSpec;
  Status : ServiceStatus;
}.

Definition ProtocolTCP : string := "TCP".
Definition ServiceTypeLoadBalancer : string := "LoadBalancer".

Definition set_NodePort (p : ServicePort) (n : Z) : ServicePort :=
  {| Name := Name p; Protocol := Protocol p; Port := Port p;
     TargetPort := TargetPort p; NodePort := n |}.

Definition set_Selector (s : Service) (sel : gmap string string) : Service :=
  {| ObjectMeta := ObjectMeta s;
     Spec := {| Type_ := Type_ (Spec s); Selector := sel; Ports := Ports (Spec s) |};
     Status := Status s |}.

Definition set_Ports (s : Service) (ps : list ServicePort) : Service :=
  {| ObjectMeta := ObjectMeta s;
     Spec := {| Type_ := Type_ (Spec s); Selector := Selector (Spec s); Ports := ps |};
     Status := Status s |}.

Definition set_ObjectMeta (s : Service) (m : metav1.ObjectMeta) : Service :=
  {| ObjectMeta := m; Spec := Spec s; Status := Status s |}.
End v1.

Module tsuruv1.
Record App := { NamespaceName : string }.
End tsuruv1.

Module router.
(** [router.Opts]: the fields this service reads. *)
Record Opts := {
  Pool : string;
  ExposedPort : string;
  AdditionalOpts : gmap string string;
}.
End router.

(** ** Errors *)

(** Errors produced outside this file are classified by the two tests the
    code applies to them: [k8sErrors.IsNotFound] and the type assertion
    [err.(ErrNoService)]. *)
Inductive ErrKind := StatusNotFound | NoService | OtherFailure.

Inductive error :=
| ErrLoadBalancerNotReady
| Errorf (msg : string)
| Foreign (kind : ErrKind) (msg : string).

Definition Error (e : error) : string :=
  match e with
  | ErrLoadBalancerNotReady => "load balancer is not ready"
  | Errorf msg => msg
  | Foreign _ msg => msg
  end.

Definition IsNotFound (e : error) : bool :=
  match e with Foreign StatusNotFound _ => true | _ => false end.

Definition isErrNoService (e : error) : bool :=
  match e with Foreign NoService _ => true | _ => false end.

(** ** Requests to the collaborators and programs over them *)

Inductive Request :=
| GetClient
| GetAppNamespace (app : string)
| GetApp (app : string)
| GetWebService (app : string)
| ServicesGet (ns name : string)
| ServicesUpdate (ns : string) (svc : v1.Service)
| ServicesCreate (ns : string) (svc : v1.Service).

(** What each request answers.  [GetClient] answers only whether a client
    was obtained: the client itself is the receiver of the [Services*]
    requests.  [GetApp] and [GetWebService] may answer a nil pointer.  The
    object answered by an update or a create is discarded by every caller. *)
Definition Response (r : Request) : Type :=
  match r with
  | GetClient => option error
  | GetAppNamespace _ => (error + string)%type
  | GetApp _ => (error + option tsuruv1.App)%type
  | GetWebService _ => (option v1.Service * option error)%type
  | ServicesGet _ _ => (error + v1.Service)%type
  | ServicesUpdate _ _ => option error
  | ServicesCreate _ _ => option error
  end.

Inductive Prog (A : Type) : Type :=
| Ret (a : A)
| Call (r : Request) (k : Response r → Prog A).
Arguments Ret {A} a.
Arguments Call {A} r k.

Fixpoint bind {A B} (p : Prog A) (f : A → Prog B) : Prog B :=
  match p with
  | Ret a => f a
  | Call r k => Call r (λ x, bind (k x) f)
  end.

Definition call (r : Request) : Prog (Response r) := Call r Ret.

Global Instance Prog_ret : MRet Prog := @Ret.
Global Instance Prog_bind : MBind Prog := λ A B f p, bind p f.

Record Event := Ev { ev_req : Request; ev_resp : Response ev_req }.

Definition is_write (e : Event) : bool :=
  match ev_req e with
  | ServicesUpdate _ _ | ServicesCreate _ _ => true
  | _ => false
  end.

Section Run.
Context {W : Type}.
Variable handle : ∀ r : Request, W → Response r * W.

Fixpoint run {A} (p : Prog A) (w : W) : A * W * list Event :=
  match p with
  | Ret a => (a, w, [])
  | Call r k =>
      let '(x, w1) := handle r w in
      let '(a, w2, t) := run (k x) w1 in
      (a, w2, Ev r x :: t)
  end.
End Run.

(** ** Collaborators that do no I/O

    Code of the package that lives outside [loadbalancer.go]: the swap
    bookkeeping of [BaseService], the serialisation of options, the
    container port of an application and the label names.  Each is taken
    as it is declared there; [swap] mutates both metadata objects in place
    and so answers their new contents. *)
Class Externals := {
  isSwapped : metav1.ObjectMeta → string * bool;
  BaseService_swap : metav1.ObjectMeta → metav1.ObjectMeta →
                     metav1.ObjectMeta * metav1.ObjectMeta;
  getAppServicePort : option tsuruv1.App → Z;
  OptsFromAnnotations : metav1.ObjectMeta → error + router.Opts;
  ToAnnotations : router.Opts → error + gmap string string;
  appLabel : string;
  managedServiceLabel : string;
  appPoolLabel : string;
  router_ExposedPort : string;
}.

(** ** The service *)

Definition defaultLBPort : Z := 80.
Definition exposeAllPortsOpt : string := "expose-all-ports".

Record BaseService := {
  Namespace : string;
  Labels : gmap string string;
  Annotations : gmap string string;
}.

Record LBService := {
  base : BaseService;
  OptsAsLabels : gmap string string;
  OptsAsLabelsDocs : gmap string string;
  PoolLabels : gmap string (gmap string string);
}.

(** [m[k]] on a [map[string]string]: the zero value when the key is absent. *)
Definition index (m : gmap string string) (k : string) : string := default "" (m !! k).

Definition serviceName (app : string) : string := app +:+ "-router-lb".

Definition isReady (service : v1.Service) : bool :=
  match v1.Ingress (v1.LoadBalancer (v1.Status service)) with
  | [] => false
  | lb :: _ => negb (String.eqb (v1.IP lb) "")
  end.

Definition getLBService (appName : string) : Prog (error + v1.Service) :=
  c ← call GetClient;
  match c with
  | Some err => mret (inl err)
  | None =>
      ns ← call (GetAppNamespace appName);
      match ns with
      | inl err => mret (inl err)
      | inr ns => call (ServicesGet ns (serviceName appName))
      end
  end.

Definition Get (appName : string) : Prog (error + gmap string string) :=
  r ← getLBService appName;
  match r with
  | inl err => mret (inl err)
  | inr service =>
      let addr := "" in
      let lbs := v1.Ingress (v1.LoadBalancer (v1.Status service)) in
      let addr :=
        match lbs with
        | [] => addr
        | lb0 :: _ =>
            let addr := v1.IP lb0 in
            let ports := v1.Ports (v1.Spec service) in
            let addr :=
              match ports with
              | [] => addr
              | port0 :: _ => addr +:+ ":" +:+ fmt.d (v1.Port port0)
              end in
            if negb (String.eqb (v1.Hostname lb0) "") then v1.Hostname lb0 else addr
        end in
      mret (inr {[ "address" := addr ]})
  end.

Section Service.
Context `{Externals}.

(** The body of the loop of [SupportedOptions], over the entries of
    [OptsAsLabels] in the order the range visits them. *)
Definition SupportedOptions_loop (s : LBService)
    (entries : list (string * string)) (opts : gmap string string) : gmap string string :=
  foldl (λ opts '(k, v),
           let opts := <[k := v]> opts in
           if negb (String.eqb (index (OptsAsLabelsDocs s) k) "")
           then <[k := index (OptsAsLabelsDocs s) k]> opts
           else opts)
        opts entries.

Definition SupportedOptions (s : LBService) : error + gmap string string :=
  let opts : gmap string string :=
    <[router_ExposedPort := ""]>
      (<[exposeAllPortsOpt :=
           "Expose all ports used by application in the Load Balancer. Defaults to false."]> ∅) in
  inr (SupportedOptions_loop s (map_to_list (OptsAsLabels s)) opts).

(** [LBService.swap]: the selectors change places, then the bookkeeping
    of [BaseService] runs on the two metadata objects. *)
Definition swap (srcServ dstServ : v1.Service) : v1.Service * v1.Service :=
  let src1 := v1.set_Selector srcServ (v1.Selector (v1.Spec dstServ)) in
  let dst1 := v1.set_Selector dstServ (v1.Selector (v1.Spec srcServ)) in
  let '(msrc, mdst) := BaseService_swap (v1.ObjectMeta src1) (v1.ObjectMeta dst1) in
  (v1.set_ObjectMeta src1 msrc, v1.set_ObjectMeta dst1 mdst).

Definition Swap (appSrc appDst : string) : Prog (option error) :=
  r ← getLBService appSrc;
  match r with
  | inl err => mret (Some err)
  | inr srcServ =>
  if negb (isReady srcServ) then mret (Some ErrLoadBalancerNotReady) else
  r ← getLBService appDst;
  match r with
  | inl err => mret (Some err)
  | inr dstServ =>
  if negb (isReady dstServ) then mret (Some ErrLoadBalancerNotReady) else
  let '(srcServ, dstServ) := swap srcServ dstServ in
  c ← call GetClient;
  match c with
  | Some err => mret (Some err)
  | None =>
  r ← call (GetAppNamespace appSrc);
  match r with
  | inl err => mret (Some err)
  | inr ns =>
  r ← call (GetAppNamespace appDst);
  match r with
  | inl err => mret (Some err)
  | inr ns2 =>
  if negb (String.eqb ns ns2) then
    mret (Some (Errorf ("unable to swap apps with different namespaces: "
                          +:+ ns +:+ " != " +:+ ns2)))
  else
  err ← call (ServicesUpdate ns srcServ);
  match err with
  | Some err => mret (Some err)
  | None =>
  err ← call (ServicesUpdate ns dstServ);
  match err with
  | Some err =>
      let '(srcServ, dstServ) := swap srcServ dstServ in
      errRollback ← call (ServicesUpdate ns srcServ);
      match errRollback with
      | Some errRollback =>
          mret (Some (Errorf ("failed to rollback swap " +:+ Error err
                                +:+ ": " +:+ Error errRollback)))
      | None => mret (Some err)
      end
  | None => mret None
  end end end end end end end.

(** [mergeMaps]: the inner loop over one entry, given the order in which
    the range visits its keys, and the outer loop over the entries. *)
Definition mergeMaps_entry (result : gmap string string)
    (entry : list (string * string)) : gmap string string :=
  foldl (λ result '(k, v),
           match result !! k with
           | Some _ => result
           | None => <[k := v]> result
           end)
        result entry.

Definition mergeMaps (entries : list (gmap string string)) : gmap string string :=
  foldl (λ result entry, mergeMaps_entry result (map_to_list entry)) ∅ entries.

(** The first loop of [fillLabelsAndAnnotations], over the entries of
    [OptsAsLabels] in the order the range visits them. *)
Definition optsLabels_loop (opts : router.Opts)
    (entries : list (string * string)) : gmap string string :=
  foldl (λ optsLabels '(optName, labelName),
           match router.AdditionalOpts opts !! optName with
           | Some optsValue => <[labelName := optsValue]> optsLabels
           | None => optsLabels
           end)
        ∅ entries.

Definition reservedLabels (appName : string) (opts : router.Opts) : gmap string string :=
  <[appLabel := appName]>
    (<[managedServiceLabel := "true"]>
       (<[appPoolLabel := router.Pool opts]> ∅)).

(** The label sources in the order the code lists them. *)
Definition labelSources (s : LBService) (optsLabels : gmap string string)
    (appName : string) (webService : option v1.Service) (opts : router.Opts)
    : list (gmap string string) :=
  let labels :=
    [ default ∅ (PoolLabels s !! router.Pool opts);
      optsLabels;
      Labels (base s);
      reservedLabels appName opts ] in
  match webService with
  | Some web => labels ++ [metav1.Labels (v1.ObjectMeta web)]
  | None => labels
  end.

(** [fillLabelsAndAnnotations] with the visiting order of the first loop
    made explicit; [svc] is mutated, its new contents are the result. *)
Definition fillLabelsAndAnnotations_in (order : list (string * string))
    (s : LBService) (svc : v1.Service) (appName : string)
    (webService : option v1.Service) (opts : router.Opts) : error + v1.Service :=
  let optsLabels := optsLabels_loop opts order in
  let labels := labelSources s optsLabels appName webService opts in
  match ToAnnotations opts with
  | inl err => inl err
  | inr optsAnnotations =>
      let annotations := [Annotations (base s); optsAnnotations] in
      let annotations :=
        match webService with
        | Some web => annotations ++ [metav1.Annotations (v1.ObjectMeta web)]
        | None => annotations
        end in
      inr (v1.set_ObjectMeta svc
             {| metav1.Name := metav1.Name (v1.ObjectMeta svc);
                metav1.Namespace := metav1.Namespace (v1.ObjectMeta svc);
                metav1.Labels := mergeMaps labels;
                metav1.Annotations := mergeMaps annotations |})
  end.

(** The function at one order of the range.  The labels depend on the
    order only when two options the caller supplied are mapped to the
    same label (lemma [optsLabels_loop_order]); what is stated about the
    labels of a sync is stated with that in view. *)
Definition fillLabelsAndAnnotations (s : LBService) :=
  fillLabelsAndAnnotations_in (map_to_list (OptsAsLabels s)) s.

(** *** Port resolution

    [wantedPorts] holds pointers: to the port entry built for the exposed
    port, or into the backing array of [baseSvc.Spec.Ports].  Both are
    written through in the loops below. *)
Inductive PortRef := PrimaryPort | BasePort (i : nat).

Global Instance PortRef_eq_dec : EqDecision PortRef.
Proof. solve_decision. Defined.

Record PortMem := {
  primary : v1.ServicePort;
  basePorts : list v1.ServicePort;
}.

Definition deref (m : PortMem) (r : PortRef) : option v1.ServicePort :=
  match r with
  | PrimaryPort => Some (primary m)
  | BasePort i => basePorts m !! i
  end.

Definition store_NodePort (m : PortMem) (r : PortRef) (n : Z) : PortMem :=
  match r with
  | PrimaryPort => {| primary := v1.set_NodePort (primary m) n; basePorts := basePorts m |}
  | BasePort i =>
      {| primary := primary m;
         basePorts := alter (λ p, v1.set_NodePort p n) i (basePorts m) |}
  end.

(** [existingPorts]: the entries of [svc.Spec.Ports] are not written in
    this function, so the map holds their values. *)
Definition existingPorts (ports : list v1.ServicePort) : gmap Z v1.ServicePort :=
  foldl (λ m port, <[v1.Port port := port]> m) ∅ ports.

Definition additionalPort (opts : router.Opts) : Z :=
  let additionalPort := (strconv.Atoi (router.ExposedPort opts)).1 in
  if (additionalPort =? 0)%Z then defaultLBPort else additionalPort.

Definition primaryPort (app : option tsuruv1.App) (additionalPort : Z) : v1.ServicePort :=
  {| v1.Name := "port-" +:+ fmt.d additionalPort;
     v1.Protocol := v1.ProtocolTCP;
     v1.Port := int32 additionalPort;
     v1.TargetPort := intstr.FromInt (getAppServicePort app);
     v1.NodePort := 0 |}.

(** The loop [for i := range basePorts]. *)
Definition basePorts_loop (additionalPort : Z) (indices : list nat)
    (st : PortMem * gmap Z PortRef) : PortMem * gmap Z PortRef :=
  foldl (λ '(mem, wantedPorts) i,
           match basePorts mem !! i with
           | None => (mem, wantedPorts)
           | Some bp =>
               if bool_decide (v1.Port bp = int32 additionalPort) then (mem, wantedPorts)
               else
                 let mem := store_NodePort mem (BasePort i) 0 in
                 (mem, <[v1.Port bp := BasePort i]> wantedPorts)
           end)
        st indices.

(** The loop [for _, wantedPort := range wantedPorts], over the entries
    in the order the range visits them. *)
Definition wantedPorts_loop (existing : gmap Z v1.ServicePort)
    (entries : list (Z * PortRef)) (st : PortMem * list v1.ServicePort)
    : PortMem * list v1.ServicePort :=
  foldl (λ '(mem, ports) '(_, wantedPort),
           match deref mem wantedPort with
           | None => (mem, ports)
           | Some p =>
               let mem :=
                 match existing !! v1.Port p with
                 | Some existingPort => store_NodePort mem wantedPort (v1.NodePort existingPort)
                 | None => mem
                 end in
               match deref mem wantedPort with
               | Some p => (mem, ports ++ [p])
               | None => (mem, ports)
               end
           end)
        st entries.

Definition port_le (p q : v1.ServicePort) : Prop := (v1.Port p ≤ v1.Port q)%Z.
Global Instance port_le_dec p q : Decision (port_le p q) := Z.le_dec _ _.

(** [sort.Slice] with the comparison [ports[i].Port < ports[j].Port].  It
    is not a stable sort; the list it is applied to has pairwise distinct
    port numbers (lemma [portsForService_in_spec]), on which every sort
    agrees (lemma [sortSlice_order]). *)
Definition sortSlice (ports : list v1.ServicePort) : list v1.ServicePort :=
  merge_sort port_le ports.

(** The state before the last loop: the existing ports, the memory with
    the entries of the backend service and the wanted pointers. *)
Definition portsForService_setup (svc : v1.Service) (app : option tsuruv1.App)
    (opts : router.Opts) (baseSvc : option v1.Service)
    : gmap Z v1.ServicePort * (PortMem * gmap Z PortRef) :=
  let additionalPort := additionalPort opts in
  let existing := existingPorts (v1.Ports (v1.Spec svc)) in
  let mem :=
    {| primary := primaryPort app additionalPort;
       basePorts := match baseSvc with
                    | Some b => v1.Ports (v1.Spec b)
                    | None => []
                    end |} in
  let wantedPorts : gmap Z PortRef := {[ int32 additionalPort := PrimaryPort ]} in
  let allPorts := (strconv.ParseBool (index (router.AdditionalOpts opts) exposeAllPortsOpt)).1 in
  (existing,
   match baseSvc with
   | Some b =>
       if allPorts
       then basePorts_loop additionalPort (seq 0 (length (basePorts mem))) (mem, wantedPorts)
       else (mem, wantedPorts)
   | None => (mem, wantedPorts)
   end).

(** [portsForService] with the visiting order of [wantedPorts] made
    explicit.  The result is the returned slice and the new contents of
    [baseSvc], whose port entries the function writes. *)
Definition portsForService_in (range : gmap Z PortRef → list (Z * PortRef))
    (svc : v1.Service) (app : option tsuruv1.App)
    (opts : router.Opts) (baseSvc : option v1.Service)
    : list v1.ServicePort * option v1.Service :=
  let '(existing, (mem, wantedPorts)) := portsForService_setup svc app opts baseSvc in
  let '(mem, ports) := wantedPorts_loop existing (range wantedPorts) (mem, []) in
  (sortSlice ports, (λ b, v1.set_Ports b (basePorts mem)) <$> baseSvc).

Definition portsForService := portsForService_in map_to_list.

(** *** Sync *)

(** The objects [lbService] and [webService] point to when [syncLB]
    returns ([None]: the pointer was never obtained). *)
Record SyncMem := { mem_lb : option v1.Service; mem_web : option v1.Service }.

Definition newLBService (s : LBService) (appName : string)
    (app : option tsuruv1.App) : v1.Service :=
  let ns := match app with
            | Some a => tsuruv1.NamespaceName a
            | None => Namespace (base s)
            end in
  {| v1.ObjectMeta := {| metav1.Name := serviceName appName;
                         metav1.Namespace := ns;
                         metav1.Labels := ∅;
                         metav1.Annotations := ∅ |};
     v1.Spec := {| v1.Type_ := v1.ServiceTypeLoadBalancer;
                   v1.Selector := ∅;
                   v1.Ports := [] |};
     v1.Status := {| v1.LoadBalancer := {| v1.Ingress := [] |} |} |}.

Definition syncLB (s : LBService) (appName : string) (opts : option router.Opts)
    (isUpdate : bool) : Prog (option error * SyncMem) :=
  r ← call (GetApp appName);
  match r with
  | inl err => mret (Some err, {| mem_lb := None; mem_web := None |})
  | inr app =>
  r ← getLBService appName;
  match (match r with
         | inr lbService => inr lbService
         | inl err =>
             if negb (IsNotFound err) then inl err
             else inr (newLBService s appName app)
         end) with
  | inl err => mret (Some err, {| mem_lb := None; mem_web := None |})
  | inr lbService =>
  if (isSwapped (v1.ObjectMeta lbService)).2
  then mret (None, {| mem_lb := Some lbService; mem_web := None |})
  else
  match (match opts with
         | Some opts => inr opts
         | None => OptsFromAnnotations (v1.ObjectMeta lbService)
         end) with
  | inl err => mret (Some err, {| mem_lb := Some lbService; mem_web := None |})
  | inr opts =>
  r ← call (GetWebService appName);
  let '(webService, err) := r in
  if match err with
     | Some err => isUpdate || negb (isErrNoService err)
     | None => false
     end
  then mret (err, {| mem_lb := Some lbService; mem_web := webService |})
  else
  let lbService :=
    match webService with
    | Some web => v1.set_Selector lbService (v1.Selector (v1.Spec web))
    | None => lbService
    end in
  match fillLabelsAndAnnotations s lbService appName webService opts with
  | inl err => mret (Some err, {| mem_lb := Some lbService; mem_web := webService |})
  | inr lbService =>
  let '(ports, webService) := portsForService lbService app opts webService in
  let lbService := v1.set_Ports lbService ports in
  let mem := {| mem_lb := Some lbService; mem_web := webService |} in
  c ← call GetClient;
  match c with
  | Some err => mret (Some err, mem)
  | None =>
  err ← call (ServicesUpdate (metav1.Namespace (v1.ObjectMeta lbService)) lbService);
  if match err with Some e => IsNotFound e | None => false end
  then
    err ← call (ServicesCreate (metav1.Namespace (v1.ObjectMeta lbService)) lbService);
    mret (err, mem)
  else mret (err, mem)
  end end end end end.

Definition Create (s : LBService) (appName : string) (opts : router.Opts) :=
  syncLB s appName (Some opts) false.

Definition Update (s : LBService) (appName : string) :=
  syncLB s appName None true.
End Service.

(** ** A sample deployment

    One concrete set of collaborators and an in-memory cluster, on which
    the definitions above can be run.  The collaborators are stand-ins
    with the shape of the package's own (a swap label on the metadata,
    options kept in annotations); the general statements below hold for
    every instance of [Externals] and every handler. *)
Module Sample.

Definition swapLabel : string := "tsuru.io/swapped-with".

Definition set_swapLabel (m : metav1.ObjectMeta) (v : string) : metav1.ObjectMeta :=
  {| metav1.Name := metav1.Name m;
     metav1.Namespace := metav1.Namespace m;
     metav1.Labels := <[swapLabel := v]> (metav1.Labels m);
     metav1.Annotations := metav1.Annotations m |}.

Global Instance externals : Externals := {|
  isSwapped m :=
    let target := index (metav1.Labels m) swapLabel in
    (target, negb (String.eqb target ""));
  BaseService_swap src dst :=
    let srcApp := index (metav1.Labels src) "tsuru.io/app-name" in
    let dstApp := index (metav1.Labels dst) "tsuru.io/app-name" in
    if String.eqb (index (metav1.Labels src) swapLabel) dstApp
    then (set_swapLabel src "", set_swapLabel dst "")
    else (set_swapLabel src dstApp, set_swapLabel dst srcApp);
  getAppServicePort app := 8888%Z;
  OptsFromAnnotations m :=
    inr {| router.Pool := index (metav1.Annotations m) "router.tsuru.io/opts-pool";
           router.ExposedPort := index (metav1.Annotations m) "router.tsuru.io/opts-exposed-port";
           router.AdditionalOpts := ∅ |};
  ToAnnotations opts :=
    inr (<["router.tsuru.io/opts-pool" := router.Pool opts]>
           (<["router.tsuru.io/opts-exposed-port" := router.ExposedPort opts]> ∅));
  appLabel := "tsuru.io/app-name";
  managedServiceLabel := "tsuru.io/router-lb";
  appPoolLabel := "tsuru.io/app-pool";
  router_ExposedPort := "exposed-port";
|}.

(** The cluster: services by namespace and name, backend services by
    application, and the outcomes injected into the next writes
    ([Some e]: the write fails with [e] and changes nothing). *)
Record Cluster := {
  objects : gmap (string * string) v1.Service;
  backends : gmap string v1.Service;
  faults : list (option error);
}.

Definition write (c : Cluster) (ns : string) (svc : v1.Service) (mustExist : bool)
    : option error * Cluster :=
  let key := (ns, metav1.Name (v1.ObjectMeta svc)) in
  let rest := tail (faults c) in
  match head (faults c) with
  | Some (Some e) =>
      (Some e, {| objects := objects c; backends := backends c; faults := rest |})
  | _ =>
      if mustExist && bool_decide (objects c !! key = None)
      then (Some (Foreign StatusNotFound "services not found"),
            {| objects := objects c; backends := backends c; faults := rest |})
      else (None, {| objects := <[key := svc]> (objects c);
                     backends := backends c; faults := rest |})
  end.

Definition handle (r : Request) : Cluster → Response r * Cluster :=
  match r as r0 return Cluster → Response r0 * Cluster with
  | GetClient => λ c, (None, c)
  | GetAppNamespace _ => λ c, (inr "default", c)
  | GetApp _ => λ c, (inr (Some {| tsuruv1.NamespaceName := "default" |}), c)
  | GetWebService app => λ c,
      (match backends c !! app with
       | Some web => (Some web, None)
       | None => (None, Some (Foreign NoService "no service found"))
       end, c)
  | ServicesGet ns name => λ c,
      (match objects c !! (ns, name) with
       | Some svc => inr svc
       | None => inl (Foreign StatusNotFound "services not found")
       end, c)
  | ServicesUpdate ns svc => λ c, write c ns svc true
  | ServicesCreate ns svc => λ c, write c ns svc false
  end.

Definition svc (name : string) (labels selector : gmap string string)
    (ports : list v1.ServicePort) (ingress : list v1.LoadBalancerIngress) : v1.Service :=
  {| v1.ObjectMeta := {| metav1.Name := name;
                         metav1.Namespace := "default";
                         metav1.Labels := labels;
                         metav1.Annotations := ∅ |};
     v1.Spec := {| v1.Type_ := v1.ServiceTypeLoadBalancer;
                   v1.Selector := selector;
                   v1.Ports := ports |};
     v1.Status := {| v1.LoadBalancer := {| v1.Ingress := ingress |} |} |}.

Definition lb (app : string) := svc (serviceName app).

Definition port (name : string) (number target nodePort : Z) : v1.ServicePort :=
  {| v1.Name := name; v1.Protocol := v1.ProtocolTCP; v1.Port := number;
     v1.TargetPort := intstr.IntVal target; v1.NodePort := nodePort |}.

Definition cluster (svcs : list v1.Service) (webs : list (string * v1.Service))
    (fs : list (option error)) : Cluster :=
  {| objects := list_to_map
       ((λ s, ((metav1.Namespace (v1.ObjectMeta s), metav1.Name (v1.ObjectMeta s)), s)) <$> svcs);
     backends := list_to_map webs;
     faults := fs |}.

Definition opts (pool exposedPort : string) (additional : gmap string string) : router.Opts :=
  {| router.Pool := pool; router.ExposedPort := exposedPort;
     router.AdditionalOpts := additional |}.

Definition service (optsAsLabels docs : gmap string string) : LBService :=
  {| base := {| Namespace := "default"; Labels := ∅; Annotations := ∅ |};
     OptsAsLabels := optsAsLabels;
     OptsAsLabelsDocs := docs;
     PoolLabels := ∅ |}.

(** Two ready balancer services, a backend service and a failure. *)
Definition ready : list v1.LoadBalancerIngress :=
  [ {| v1.IP := "10.0.0.1"; v1.Hostname := "" |} ].

Definition blue : v1.Service :=
  lb "blue" {[ "tsuru.io/app-name" := "blue" ]} {[ "app" := "blue" ]}
     [ port "port-80" 80 8888 30080 ] ready.

Definition green : v1.Service :=
  lb "green" {[ "tsuru.io/app-name" := "green" ]} {[ "app" := "green" ]}
     [ port "port-80" 80 8888 30081 ] ready.

Definition pending : v1.Service :=
  lb "green" {[ "tsuru.io/app-name" := "green" ]} {[ "app" := "green" ]} [] [].

Definition swapped : v1.Service :=
  lb "blue" {[ "tsuru.io/app-name" := "blue"; swapLabel := "green" ]}
     {[ "app" := "green" ]} [ port "port-80" 80 8888 30080 ] ready.

Definition web : v1.Service :=
  svc "blue-web" {[ "tier" := "web" ]} {[ "app" := "blue" ]}
      [ port "http" 80 8000 31080;
        port "alt" 8080 8001 31081;
        port "https" 443 8443 31443 ] [].

Definition conflict : error := Foreign OtherFailure "conflict".

Definition allPorts : router.Opts :=
  opts "" "8080" {[ exposeAllPortsOpt := "true" ]}.

End Sample.

(** ** Removal

    [Remove] is the one operation that deletes from the cluster and the
    one that returns the error type [ErrAppSwapped] (declared with
    [BaseService]).  Its programs run over the requests above extended
    with the deletion; the programs above are lifted unchanged. *)

Inductive DRequest :=
| Plain (r : Request)
| ServicesDelete (ns name : string).

Definition DResponse (r : DRequest) : Type :=
  match r with
  | Plain r => Response r
  | ServicesDelete _ _ => option error
  end.

Inductive DProg (A : Type) : Type :=
| DRet (a : A)
| DCall (r : DRequest) (k : DResponse r → DProg A).
Arguments DRet {A} a.
Arguments DCall {A} r k.

Fixpoint dbind {A B} (p : DProg A) (f : A → DProg B) : DProg B :=
  match p with
  | DRet a => f a
  | DCall r k => DCall r (λ x, dbind (k x) f)
  end.

Global Instance DProg_ret : MRet DProg := @DRet.
Global Instance DProg_bind : MBind DProg := λ A B f p, dbind p f.

Definition dcall (r : DRequest) : DProg (DResponse r) := DCall r DRet.

Fixpoint lift {A} (p : Prog A) : DProg A :=
  match p with
  | Ret a => DRet a
  | Call r k => DCall (Plain r) (λ x, lift (k x))
  end.

Record DEvent := DEv { dev_req : DRequest; dev_resp : DResponse dev_req }.

Section DRun.
Context {W : Type}.
Variable handle : ∀ r : DRequest, W → DResponse r * W.

Fixpoint drun {A} (p : DProg A) (w : W) : A * W * list DEvent :=
  match p with
  | DRet a => (a, w, [])
  | DCall r k =>
      let '(x, w1) := handle r w in
      let '(a, w2, t) := drun (k x) w1 in
      (a, w2, DEv r x :: t)
  end.
End DRun.

(** What [Remove] returns: an error of a collaborator, or
    [ErrAppSwapped{App, DstApp}]. *)
Inductive RemoveError :=
| Failed (err : error)
| ErrAppSwapped (App DstApp : string).

Section Removal.
Context `{Externals}.

Definition Remove (appName : string) : DProg (option RemoveError) :=
  c ← dcall (Plain GetClient);
  match c with
  | Some err => mret (Some (Failed err))
  | None =>
  r ← lift (getLBService appName);
  match r with
  | inl err =>
      if IsNotFound err then mret None else mret (Some (Failed err))
  | inr service =>
  let '(dstApp, swapped) := isSwapped (v1.ObjectMeta service) in
  if swapped then mret (Some (ErrAppSwapped appName dstApp)) else
  r ← dcall (Plain (GetAppNamespace appName));
  match r with
  | inl err => mret (Some (Failed err))
  | inr ns =>
  err ← dcall (ServicesDelete ns (metav1.Name (v1.ObjectMeta service)));
  if match err with Some e => IsNotFound e | None => false end
  then mret None
  else mret (Failed <$> err)
  end end end.
End Removal.

(** The sample cluster with deletion: a deletion consumes an injected
    outcome like a write, and fails with a not-found status when the
    service does not exist. *)
Module SampleRemoval.

Definition delete (c : Sample.Cluster) (ns name : string) : option error * Sample.Cluster :=
  let rest := tail (Sample.faults c) in
  match head (Sample.faults c) with
  | Some (Some e) =>
      (Some e, {| Sample.objects := Sample.objects c;
                  Sample.backends := Sample.backends c; Sample.faults := rest |})
  | _ =>
      match Sample.objects c !! (ns, name) with
      | None =>
          (Some (Foreign StatusNotFound "services not found"),
           {| Sample.objects := Sample.objects c;
              Sample.backends := Sample.backends c; Sample.faults := rest |})
      | Some _ =>
          (None, {| Sample.objects := base.delete (ns, name) (Sample.objects c);
                    Sample.backends := Sample.backends c; Sample.faults := rest |})
      end
  end.

Definition handle (r : DRequest) : Sample.Cluster → DResponse r * Sample.Cluster :=
  match r as r0 return Sample.Cluster → DResponse r0 * Sample.Cluster with
  | Plain r => Sample.handle r
  | ServicesDelete ns name => λ c, delete c ns name
  end.

End SampleRemoval.

(** ** Vocabulary of the statements *)

(** The description [SupportedOptions] leaves for an option mapped to the
    label [v]. *)
Definition description (s : LBService) (k v : string) : string :=
  if bool_decide (index (OptsAsLabelsDocs s) k = "") then v
  else index (OptsAsLabelsDocs s) k.

(** The static entries of the option catalog. *)
Definition staticOptions `{Externals} : gmap string string :=
  <[router_ExposedPort := ""]>
    (<[exposeAllPortsOpt :=
         "Expose all ports used by application in the Load Balancer. Defaults to false."]> ∅).

(** The value of the earliest map of [entries] that has the key [k]. *)
Fixpoint firstWriter (k : string) (entries : list (gmap string string)) : option string :=
  match entries with
  | [] => None
  | entry :: entries =>
      match entry !! k with
      | Some v => Some v
      | None => firstWriter k entries
      end
  end.

(** What the last loop of [portsForService] makes of a wanted port: the
    node port of the existing port with the same number, when there is one. *)
Definition resolve (existing : gmap Z v1.ServicePort) (p : v1.ServicePort) : v1.ServicePort :=
  match existing !! v1.Port p with
  | Some existingPort => v1.set_NodePort p (v1.NodePort existingPort)
  | None => p
  end.

(** The memory after visiting the pointers [refs]. *)
Definition touch (existing : gmap Z v1.ServicePort) (refs : list PortRef)
    (mem : PortMem) : PortMem :=
  {| primary := if bool_decide (PrimaryPort ∈ refs)
                then resolve existing (primary mem) else primary mem;
     basePorts := imap (λ i p, if bool_decide (BasePort i ∈ refs)
                               then resolve existing p else p) (basePorts mem) |}.

(** The entry appended when visiting one wanted pointer. *)
Definition emit (existing : gmap Z v1.ServicePort) (mem : PortMem)
    (entry : Z * PortRef) : list v1.ServicePort :=
  match deref mem entry.2 with
  | Some p => [resolve existing p]
  | None => []
  end.

(** A backend port entry after the loop over [basePorts] visited it. *)
Definition strip (P : Z) (p : v1.ServicePort) : v1.ServicePort :=
  if bool_decide (v1.Port p = P) then p else v1.set_NodePort p 0.

Definition baseSvcPorts (baseSvc : option v1.Service) : list v1.ServicePort :=
  match baseSvc with
  | Some b => v1.Ports (v1.Spec b)
  | None => []
  end.

(** The condition [allPorts && baseSvc != nil]. *)
Definition exposesAll (opts : router.Opts) (baseSvc : option v1.Service) : bool :=
  (strconv.ParseBool (index (router.AdditionalOpts opts) exposeAllPortsOpt)).1
  && bool_decide (is_Some baseSvc).

Definition port_lt (p q : v1.ServicePort) : Prop := (v1.Port p < v1.Port q)%Z.

(** The services answered by the successful [ServicesGet] requests of a
    trace, the updates of a trace with their outcome, and all its writes. *)
Definition fetched (t : list Event) : list v1.Service :=
  t ≫= λ e,
    match e with
    | Ev r x =>
        match r as r0 return Response r0 → list v1.Service with
        | ServicesGet _ _ => λ x, match x with inr svc => [svc] | inl _ => [] end
        | _ => λ _, []
        end x
    end.

Definition updates (t : list Event) : list (string * v1.Service * option error) :=
  t ≫= λ e,
    match e with
    | Ev r x =>
        match r as r0 return Response r0 → list (string * v1.Service * option error) with
        | ServicesUpdate ns svc => λ x, [(ns, svc, x)]
        | _ => λ _, []
        end x
    end.

Definition written (t : list Event) : list v1.Service :=
  t ≫= λ e,
    match ev_req e with
    | ServicesUpdate _ svc | ServicesCreate _ svc => [svc]
    | _ => []
    end.

(** The backend services answered by [GetWebService] requests. *)
Definition backends_seen (t : list Event) : list v1.Service :=
  t ≫= λ e,
    match e with
    | Ev r x =>
        match r as r0 return Response r0 → list v1.Service with
        | GetWebService _ => λ x, match x.1 with Some web => [web] | None => [] end
        | _ => λ _, []
        end x
    end.

(** The namespaces answered by the [GetAppNamespace] requests of a trace. *)
Definition namespaces (t : list Event) : list string :=
  t ≫= λ e,
    match e with
    | Ev r x =>
        match r as r0 return Response r0 → list string with
        | GetAppNamespace _ => λ x, match x with inr ns => [ns] | inl _ => [] end
        | _ => λ _, []
        end x
    end.

(** The applications answered by [GetApp], the answers of [GetWebService],
    the errors answered by [GetClient] and the write events of a trace. *)
Definition apps (t : list Event) : list (option tsuruv1.App) :=
  t ≫= λ e,
    match e with
    | Ev r x =>
        match r as r0 return Response r0 → list (option tsuruv1.App) with
        | GetApp _ => λ x, match x with inr app => [app] | inl _ => [] end
        | _ => λ _, []
        end x
    end.

Definition backend_answers (t : list Event) : list (option v1.Service * option error) :=
  t ≫= λ e,
    match e with
    | Ev r x =>
        match r as r0 return Response r0 → list (option v1.Service * option error) with
        | GetWebService _ => λ x, [x]
        | _ => λ _, []
        end x
    end.

Definition client_errors (t : list Event) : list error :=
  t ≫= λ e,
    match e with
    | Ev r x =>
        match r as r0 return Response r0 → list error with
        | GetClient => λ x, match x with Some err => [err] | None => [] end
        | _ => λ _, []
        end x
    end.

Definition write_events (t : list Event) : list Event :=
  t ≫= λ e, if is_write e then [e] else [].

(** The service a sync writes, from the balancer service it works on
    ([lb0]: fetched, or new), the backend service it was answered, the
    options in force, their serialisation, and the order in which the
    range over [OptsAsLabels] visits its entries. *)
Definition desired `{Externals} (order : list (string * string)) (s : LBService)
    (appName : string) (app : option tsuruv1.App) (lb0 : v1.Service)
    (web : option v1.Service) (o : router.Opts) (a : gmap string string) : v1.Service :=
  {| v1.ObjectMeta :=
       {| metav1.Name := metav1.Name (v1.ObjectMeta lb0);
          metav1.Namespace := metav1.Namespace (v1.ObjectMeta lb0);
          metav1.Labels :=
            mergeMaps (labelSources s (optsLabels_loop o order) appName web o);
          metav1.Annotations :=
            mergeMaps ([Annotations (base s); a]
                       ++ match web with
                          | Some w => [metav1.Annotations (v1.ObjectMeta w)]
                          | None => []
                          end) |};
     v1.Spec :=
       {| v1.Type_ := v1.Type_ (v1.Spec lb0);
          v1.Selector := match web with
                         | Some w => v1.Selector (v1.Spec w)
                         | None => v1.Selector (v1.Spec lb0)
                         end;
          v1.Ports := (portsForService lb0 app o web).1 |};
     v1.Status := v1.Status lb0 |}.

(** The deletions of a removal trace with their outcome, and its other
    events. *)
Definition deletions (t : list DEvent) : list (string * string * option error) :=
  t ≫= λ e,
    match e with
    | DEv r x =>
        match r as r0 return DResponse r0 → list (string * string * option error) with
        | ServicesDelete ns name => λ x, [(ns, name, x)]
        | Plain _ => λ _, []
        end x
    end.

Definition plain (t : list DEvent) : list Event :=
  t ≫= λ e,
    match e with
    | DEv r x =>
        match r as r0 return DResponse r0 → list Event with
        | Plain r => λ x, [Ev r x]
        | ServicesDelete _ _ => λ _, []
        end x
    end.

(** ** Two more sample deployments

    [Tenants]: the sample cluster seen through a lookup that gives every
    application a namespace of its own (named after it) while services are
    found by name.  [Strict]: the sample collaborators with an option
    parser that rejects metadata carrying the annotation
    ["router.tsuru.io/opts-invalid"]. *)
Module Tenants.

Definition handle (r : Request) : Sample.Cluster → Response r * Sample.Cluster :=
  match r as r0 return Sample.Cluster → Response r0 * Sample.Cluster with
  | GetAppNamespace app => λ c, (inr app, c)
  | ServicesGet ns name => λ c,
      (match Sample.objects c !! ("default", name) with
       | Some svc => inr svc
       | None => inl (Foreign StatusNotFound "services not found")
       end, c)
  | r => Sample.handle r
  end.

End Tenants.

Module Strict.

Definition externals : Externals := {|
  isSwapped := @isSwapped Sample.externals;
  BaseService_swap := @BaseService_swap Sample.externals;
  getAppServicePort := @getAppServicePort Sample.externals;
  OptsFromAnnotations m :=
    match metav1.Annotations m !! "router.tsuru.io/opts-invalid" with
    | Some reason => inl (Foreign OtherFailure reason)
    | None => @OptsFromAnnotations Sample.externals m
    end;
  ToAnnotations := @ToAnnotations Sample.externals;
  appLabel := @appLabel Sample.externals;
  managedServiceLabel := @managedServiceLabel Sample.externals;
  appPoolLabel := @appPoolLabel Sample.externals;
  router_ExposedPort := @router_ExposedPort Sample.externals;
|}.

Definition invalid : v1.Service :=
  v1.set_ObjectMeta Sample.blue
    {| metav1.Name := metav1.Name (v1.ObjectMeta Sample.blue);
       metav1.Namespace := metav1.Namespace (v1.ObjectMeta Sample.blue);
       metav1.Labels := metav1.Labels (v1.ObjectMeta Sample.blue);
       metav1.Annotations := {[ "router.tsuru.io/opts-invalid" := "unexpected end of input" ]} |}.

End Strict.

(** * Properties *)

(** ** Programs and runs *)

Section RunFacts.
Context {W : Type}.
Variable handle : ∀ r : Request, W → Response r * W.

Lemma run_bind {A B} (p : Prog A) (f : A → Prog B) w :
  run handle (p ≫= f) w =
    let '(a, w1, t1) := run handle p w in
    let '(b, w2, t2) := run handle (f a) w1 in
    (b, w2, t1 ++ t2).
Proof.
  unfold mbind, Prog_bind.
  revert w. induction p as [a | r k IH]; intros w; simpl.
  - by destruct (run handle (f a) w) as [[b w2] t2].
  - destruct (handle r w) as [x w1]. rewrite IH.
    destruct (run handle (k x) w1) as [[a w2] t1].
    by destruct (run handle (f a) w2) as [[b w3] t2].
Qed.

(** Fetching a balancer service issues no write. *)
Lemma getLBService_reads appName w :
  Forall (λ e, is_write e = false) (run handle (getLBService appName) w).2.
Proof.
  unfold getLBService, mbind, Prog_bind, call. simpl.
  destruct (handle GetClient w) as [[err|] w1]; simpl.
  { by repeat constructor. }
  destruct (handle (GetAppNamespace appName) w1) as [[err|ns] w2]; simpl.
  { by repeat constructor. }
  destruct (handle (ServicesGet ns (serviceName appName)) w2) as [x w3]; simpl.
  by repeat constructor.
Qed.
End RunFacts.

Lemma triple_eta {A B C} (x : A * B * C) : x = (x.1.1, x.1.2, x.2).
Proof. by destruct x as [[? ?] ?]. Qed.

(** ** Readiness *)

(** C7: [isReady] answers true exactly when the status has an ingress
    entry and the first entry's IP is not empty; a service whose only
    ingress entry has an empty IP is not ready, whatever its hostname. *)
Theorem isReady_iff (service : v1.Service) :
  (isReady service = true ↔
     ∃ lb rest, v1.Ingress (v1.LoadBalancer (v1.Status service)) = lb :: rest
                ∧ v1.IP lb ≠ "")
  ∧ ∀ hostname,
      isReady {| v1.ObjectMeta := v1.ObjectMeta service;
                 v1.Spec := v1.Spec service;
                 v1.Status := {| v1.LoadBalancer :=
                   {| v1.Ingress := [ {| v1.IP := ""; v1.Hostname := hostname |} ] |} |} |}
      = false.
Proof.
  split; [|done].
  unfold isReady.
  destruct (v1.Ingress _) as [|lb rest].
  - split; [done | by intros (? & ? & ? & ?)].
  - rewrite negb_true_iff. split.
    + intros Hne. exists lb, rest. split; [done|].
      intros Heq. by rewrite Heq in Hne.
    + intros (lb' & rest' & [= <- <-] & Hne).
      by apply String.eqb_neq.
Qed.

(** ** Address lookup *)

(** C8: [Get] fails when the fetch fails; otherwise the address is empty
    for an empty ingress list, the first entry's hostname when that is not
    empty, and else the first entry's IP, followed by a colon and the
    first port's number when the service has a port. *)
Theorem Get_address {W} (handle : ∀ r : Request, W → Response r * W) w appName :
  let '(r, w1, t) := run handle (getLBService appName) w in
  match r with
  | inl err => run handle (Get appName) w = (inl err, w1, t)
  | inr service =>
      ∃ addr : string,
        run handle (Get appName) w = (inr {[ "address" := addr ]}, w1, t)
        ∧ match v1.Ingress (v1.LoadBalancer (v1.Status service)) with
          | [] => addr = ""
          | lb :: _ =>
              if bool_decide (v1.Hostname lb = "") then
                match v1.Ports (v1.Spec service) with
                | [] => addr = v1.IP lb
                | p :: _ => addr = v1.IP lb +:+ ":" +:+ pretty (v1.Port p)
                end
              else addr = v1.Hostname lb
          end
  end.
Proof.
  unfold Get. rewrite run_bind.
  destruct (run handle (getLBService appName) w) as [[[err|service] w1] t]; simpl.
  { by rewrite app_nil_r. }
  eexists. rewrite app_nil_r. split; [done|].
  destruct (v1.Ingress _) as [|lb ?]; [done|].
  case_bool_decide as Hh.
  - rewrite Hh. simpl. by destruct (v1.Ports _).
  - apply String.eqb_neq in Hh. by rewrite Hh.
Qed.

(** The three addresses of the specification's example. *)
Example Get_address_examples :
  let ip_only := [ {| v1.IP := "1.2.3.4"; v1.Hostname := "" |} ] in
  let named := [ {| v1.IP := "1.2.3.4"; v1.Hostname := "lb.example.com" |} ] in
  let ports := [ Sample.port "port-80" 80 8888 30080 ] in
  let get ingress :=
    (run Sample.handle (Get "app")
       (Sample.cluster [Sample.lb "app" ∅ ∅ ports ingress] [] [])).1.1 in
  get ip_only = inr {[ "address" := "1.2.3.4:80" ]}
  ∧ get named = inr {[ "address" := "lb.example.com" ]}
  ∧ get [] = inr {[ "address" := "" ]}.
Proof. vm_compute. done. Qed.

(** ** Option catalog *)

Section Catalog.
Context `{Externals}.
Implicit Types (s : LBService) (opts : gmap string string).

Lemma SupportedOptions_loop_lookup s entries opts k :
  NoDup entries.*1 →
  SupportedOptions_loop s entries opts !! k =
    match (list_to_map entries : gmap string string) !! k with
    | Some v => Some (description s k v)
    | None => opts !! k
    end.
Proof.
  unfold SupportedOptions_loop.
  revert opts. induction entries as [|[k0 v0] entries IH]; intros opts Hnd; [done|].
  apply NoDup_cons in Hnd as [Hk0 Hnd]. simpl foldl. rewrite IH by done. simpl.
  destruct (decide (k = k0)) as [->|Hne].
  - rewrite lookup_insert_eq.
    rewrite (not_elem_of_list_to_map_1 _ k0) by done.
    unfold description. case_bool_decide as Hd.
    + rewrite Hd. simpl. by rewrite lookup_insert_eq.
    + apply String.eqb_neq in Hd. rewrite Hd. simpl. by rewrite lookup_insert_eq.
  - rewrite lookup_insert_ne by done.
    destruct (list_to_map entries !! k); [done|].
    destruct (negb _); by rewrite !lookup_insert_ne.
Qed.

(** The catalog does not depend on the order in which the range visits
    [OptsAsLabels]. *)
Lemma SupportedOptions_loop_order s entries opts :
  entries ≡ₚ map_to_list (OptsAsLabels s) →
  SupportedOptions_loop s entries opts =
  SupportedOptions_loop s (map_to_list (OptsAsLabels s)) opts.
Proof.
  intros Hp. apply map_eq. intros k.
  assert (NoDup entries.*1) as Hnd.
  { rewrite Hp. apply NoDup_fst_map_to_list. }
  rewrite !SupportedOptions_loop_lookup; [|apply NoDup_fst_map_to_list|done].
  rewrite list_to_map_to_list.
  assert ((list_to_map entries : gmap string string) = OptsAsLabels s) as ->; [|done].
  rewrite <-(list_to_map_to_list (OptsAsLabels s)).
  by apply list_to_map_proper.
Qed.

(** C10, as the code has it: the catalog holds the exposed-port option,
    the expose-all-ports option and exactly one entry more per configured
    option-to-label mapping; the description of such an entry is the
    configured text when there is a non-empty one, and otherwise the name
    of the label the option is mapped to. *)
Theorem SupportedOptions_entries s :
  ∃ opts,
    SupportedOptions s = inr opts
    ∧ is_Some (opts !! router_ExposedPort)
    ∧ is_Some (opts !! exposeAllPortsOpt)
    ∧ dom opts = {[ router_ExposedPort; exposeAllPortsOpt ]} ∪ dom (OptsAsLabels s)
    ∧ ∀ k,
        opts !! k =
          match OptsAsLabels s !! k with
          | Some v => Some (if bool_decide (index (OptsAsLabelsDocs s) k = "")
                            then v else index (OptsAsLabelsDocs s) k)
          | None => staticOptions !! k
          end.
Proof.
  eexists. split; [done|].
  assert (∀ k, SupportedOptions_loop s (map_to_list (OptsAsLabels s)) staticOptions !! k
               = match OptsAsLabels s !! k with
                 | Some v => Some (description s k v)
                 | None => staticOptions !! k
                 end) as Hlook.
  { intros k. rewrite SupportedOptions_loop_lookup by apply NoDup_fst_map_to_list.
    by rewrite list_to_map_to_list. }
  fold staticOptions. unfold staticOptions in Hlook |- * at 2.
  split_and!.
  - rewrite Hlook. destruct (OptsAsLabels s !! _); [done|].
    by rewrite lookup_insert_eq.
  - rewrite Hlook. destruct (OptsAsLabels s !! _); [done|].
    destruct (decide (router_ExposedPort = exposeAllPortsOpt)) as [->|].
    + by rewrite lookup_insert_eq.
    + by rewrite lookup_insert_ne, lookup_insert_eq.
  - apply set_eq. intros k. rewrite elem_of_dom, Hlook.
    rewrite elem_of_union, elem_of_dom, elem_of_union, !elem_of_singleton.
    destruct (OptsAsLabels s !! k) as [v|] eqn:Hk.
    + split; [intros _; right; by eexists | by eexists].
    + rewrite lookup_insert. case_decide as H1.
      { split; [left; by left | by eexists]. }
      rewrite lookup_insert. case_decide as H2.
      { split; [left; by right | by eexists]. }
      rewrite lookup_empty. split; [by intros [? [=]]|].
      intros [[?|?]|[? [=]]]; congruence.
  - intros k. by rewrite Hlook.
Qed.
End Catalog.

(** C10, as the specification words it, fails: an option mapped to a label
    and left without a description is listed with the label's name, not
    with the empty string. *)
Lemma SupportedOptions_undocumented_option :
  let s := Sample.service {[ "flavor" := "example.io/flavor" ]} ∅ in
  OptsAsLabels s !! "flavor" = Some "example.io/flavor"
  ∧ OptsAsLabelsDocs s !! "flavor" = None
  ∧ ∃ opts, SupportedOptions s = inr opts
            ∧ opts !! "flavor" = Some "example.io/flavor"
            ∧ opts !! "flavor" ≠ Some "".
Proof.
  simpl. split_and!; [done..|].
  eexists. split; [done|]. split; [by vm_compute | by vm_compute].
Qed.

(** ** Label and annotation merging *)

Section Merge.
Context `{Externals}.
Implicit Types (result entry : gmap string string).

Lemma mergeMaps_entry_union result (l : list (string * string)) :
  mergeMaps_entry result l = result ∪ list_to_map l.
Proof.
  unfold mergeMaps_entry.
  revert result. induction l as [|[k v] l IH]; intros result; simpl.
  { by rewrite (right_id_L ∅ (∪)). }
  rewrite IH. apply map_eq. intros i.
  destruct (result !! k) as [v'|] eqn:Hk; rewrite !lookup_union.
  - destruct (decide (i = k)) as [->|Hne].
    + rewrite Hk, lookup_insert_eq. by destruct (list_to_map l !! k).
    + by rewrite lookup_insert_ne.
  - destruct (decide (i = k)) as [->|Hne].
    + rewrite !lookup_insert_eq, Hk. by destruct (list_to_map l !! k).
    + by rewrite !lookup_insert_ne.
Qed.

(** Merging one entry is independent of the order in which the range
    visits its keys. *)
Lemma mergeMaps_entry_order result entry l :
  l ≡ₚ map_to_list entry → mergeMaps_entry result l = result ∪ entry.
Proof.
  intros Hp. rewrite mergeMaps_entry_union. f_equal.
  rewrite <-(list_to_map_to_list entry).
  apply list_to_map_proper; [|done].
  rewrite Hp. apply NoDup_fst_map_to_list.
Qed.

Lemma mergeMaps_foldl_lookup result entries k :
  foldl (λ result entry, mergeMaps_entry result (map_to_list entry)) result entries !! k =
    match result !! k with
    | Some v => Some v
    | None => firstWriter k entries
    end.
Proof.
  revert result. induction entries as [|entry entries IH]; intros result; simpl.
  { by destruct (result !! k). }
  rewrite IH, (mergeMaps_entry_order _ entry) by done.
  rewrite lookup_union.
  destruct (result !! k), (entry !! k); done.
Qed.

Lemma mergeMaps_lookup entries k : mergeMaps entries !! k = firstWriter k entries.
Proof. unfold mergeMaps. by rewrite mergeMaps_foldl_lookup, lookup_empty. Qed.

(** A label derived from the options comes from an option that is mapped
    to it and that the caller supplied. *)
Lemma optsLabels_loop_supplied opts (order : list (string * string)) label value :
  optsLabels_loop opts order !! label = Some value →
  ∃ optName, (optName, label) ∈ order
             ∧ router.AdditionalOpts opts !! optName = Some value.
Proof.
  unfold optsLabels_loop.
  assert (∀ acc : gmap string string,
    foldl (λ optsLabels '(optName, labelName),
             match router.AdditionalOpts opts !! optName with
             | Some optsValue => <[labelName := optsValue]> optsLabels
             | None => optsLabels
             end) acc order !! label = Some value →
    acc !! label = Some value
    ∨ ∃ optName, (optName, label) ∈ order
                 ∧ router.AdditionalOpts opts !! optName = Some value) as Hgen.
  { induction order as [|[o l] order IH]; intros acc; simpl; [by left|].
    intros Hl. apply IH in Hl as [Hl|(o' & Hin & Ho')].
    - destruct (router.AdditionalOpts opts !! o) as [v|] eqn:Ho; [|by left].
      destruct (decide (l = label)) as [->|Hne].
      + rewrite lookup_insert_eq in Hl. injection Hl as ->.
        right. exists o. split; [left|done].
      + rewrite lookup_insert_ne in Hl by done. by left.
    - right. exists o'. split; [by right|done]. }
  intros Hl. apply Hgen in Hl as [Hl|Hl]; [by rewrite lookup_empty in Hl|done].
Qed.

(** Every supplied option that is mapped to a label yields that label. *)
Lemma optsLabels_loop_covers opts (order : list (string * string)) optName label value :
  (optName, label) ∈ order →
  router.AdditionalOpts opts !! optName = Some value →
  is_Some (optsLabels_loop opts order !! label).
Proof.
  unfold optsLabels_loop.
  assert (∀ acc : gmap string string,
    (is_Some (acc !! label) ∨ (optName, label) ∈ order) →
    router.AdditionalOpts opts !! optName = Some value →
    is_Some (foldl (λ optsLabels '(optName, labelName),
             match router.AdditionalOpts opts !! optName with
             | Some optsValue => <[labelName := optsValue]> optsLabels
             | None => optsLabels
             end) acc order !! label)) as Hgen.
  { induction order as [|[o l] order IH]; intros acc Hor Hv; simpl.
    { destruct Hor as [?|Hin]; [done|by apply elem_of_nil in Hin]. }
    apply IH; [|done].
    destruct Hor as [Hacc|Hin].
    - left. destruct (router.AdditionalOpts opts !! o); [|done].
      rewrite lookup_insert. case_decide; [by eexists|done].
    - apply elem_of_cons in Hin as [[= <- <-]|Hin]; [|by right].
      left. rewrite Hv. rewrite lookup_insert_eq. by eexists. }
  intros Hin Hv. apply Hgen; [by right|done].
Qed.

(** C5: when the options serialise, the labels put on the service are,
    key by key, the value of the earliest source that has the key, in the
    order pool overrides, option-derived labels, router-wide labels,
    reserved labels, labels of the backend service (when there is one);
    option-derived labels exist exactly for the mapped options the caller
    supplied; when the options do not serialise the call fails.  This
    holds for every order in which the range visits [OptsAsLabels]. *)
Theorem fillLabelsAndAnnotations_precedence (s : LBService) (svc : v1.Service)
    (appName : string) (webService : option v1.Service) (opts : router.Opts)
    (order : list (string * string)) :
  order ≡ₚ map_to_list (OptsAsLabels s) →
  let optsLabels := optsLabels_loop opts order in
  match ToAnnotations opts with
  | inl err => fillLabelsAndAnnotations_in order s svc appName webService opts = inl err
  | inr _ =>
      ∃ svc',
        fillLabelsAndAnnotations_in order s svc appName webService opts = inr svc'
        ∧ (∀ k,
             metav1.Labels (v1.ObjectMeta svc') !! k =
               match default ∅ (PoolLabels s !! router.Pool opts) !! k with
               | Some v => Some v
               | None =>
               match optsLabels !! k with
               | Some v => Some v
               | None =>
               match Labels (base s) !! k with
               | Some v => Some v
               | None =>
               match reservedLabels appName opts !! k with
               | Some v => Some v
               | None =>
               match webService with
               | Some web => metav1.Labels (v1.ObjectMeta web) !! k
               | None => None
               end end end end end)
        ∧ (∀ label value,
             optsLabels !! label = Some value →
             ∃ optName, OptsAsLabels s !! optName = Some label
                        ∧ router.AdditionalOpts opts !! optName = Some value)
        ∧ (∀ optName label,
             OptsAsLabels s !! optName = Some label →
             is_Some (router.AdditionalOpts opts !! optName) →
             is_Some (optsLabels !! label))
        ∧ reservedLabels appName opts !! appLabel = Some appName
        ∧ dom (reservedLabels appName opts)
          = {[ appLabel; managedServiceLabel; appPoolLabel ]}
  end.
Proof.
  intros Hp optsLabels. unfold fillLabelsAndAnnotations_in.
  destruct (ToAnnotations opts) as [err|optsAnnotations]; [done|].
  eexists. split; [done|]. split_and!.
  - intros k. subst optsLabels. cbn [v1.set_ObjectMeta v1.ObjectMeta metav1.Labels].
    rewrite mergeMaps_lookup. unfold labelSources.
    destruct webService as [web|]; cbn [firstWriter app];
      repeat (match goal with |- context [match ?m !! k with _ => _ end] =>
                destruct (m !! k) end; try done).
  - intros label value Hl.
    apply optsLabels_loop_supplied in Hl as (optName & Hin & Hv).
    exists optName. split; [|done].
    rewrite Hp in Hin. by apply elem_of_map_to_list in Hin.
  - intros optName label Hmap [value Hv].
    eapply optsLabels_loop_covers; [|done].
    rewrite Hp. by apply elem_of_map_to_list.
  - unfold reservedLabels. by rewrite lookup_insert_eq.
  - unfold reservedLabels. rewrite !dom_insert_L, dom_empty_L.
    by rewrite (right_id_L ∅ (∪)), !(assoc_L (∪)).
Qed.
End Merge.

Lemma fillLabelsAndAnnotations_precedence_witness :
  let s := Sample.service {[ "flavor" := "example.io/flavor" ]} ∅ in
  let opts := Sample.opts "pool1" "8080" {[ "flavor" := "large" ]} in
  ∃ svc',
    fillLabelsAndAnnotations s (Sample.lb "app" ∅ ∅ [] []) "app" None opts = inr svc'
    ∧ metav1.Labels (v1.ObjectMeta svc') !! "example.io/flavor" = Some "large"
    ∧ metav1.Labels (v1.ObjectMeta svc') !! "tsuru.io/app-name" = Some "app".
Proof.
  intros s opts.
  pose proof (fillLabelsAndAnnotations_precedence s (Sample.lb "app" ∅ ∅ [] []) "app"
                None opts (map_to_list (OptsAsLabels s)) (reflexivity _)) as Hthm.
  simpl in Hthm. destruct Hthm as (svc' & Hrun & Hlabels & _).
  exists svc'. split; [exact Hrun|].
  split; rewrite Hlabels; vm_compute; reflexivity.
Defined.

(** ** Port resolution *)

Section Ports.
Context `{Externals}.
Implicit Types (existing : gmap Z v1.ServicePort) (mem : PortMem)
               (p q : v1.ServicePort) (r : PortRef).

Lemma set_NodePort_Port p n : v1.Port (v1.set_NodePort p n) = v1.Port p.
Proof. done. Qed.

Lemma set_NodePort_set p n m :
  v1.set_NodePort (v1.set_NodePort p n) m = v1.set_NodePort p m.
Proof. done. Qed.

Lemma set_NodePort_id p : v1.set_NodePort p (v1.NodePort p) = p.
Proof. by destruct p. Qed.

Lemma resolve_Port existing p : v1.Port (resolve existing p) = v1.Port p.
Proof. unfold resolve. by destruct (existing !! _). Qed.

Lemma resolve_idemp existing p :
  resolve existing (resolve existing p) = resolve existing p.
Proof.
  unfold resolve at 1. rewrite resolve_Port. unfold resolve.
  destruct (existing !! v1.Port p); [|done]. apply set_NodePort_set.
Qed.

Lemma resolve_NodePort existing p :
  v1.NodePort (resolve existing p) =
    match existing !! v1.Port p with
    | Some e => v1.NodePort e
    | None => v1.NodePort p
    end.
Proof. unfold resolve. by destruct (existing !! _). Qed.

(** *** The map of existing ports *)

Lemma existingPorts_foldl_lookup (ports : list v1.ServicePort)
    (acc : gmap Z v1.ServicePort) n e :
  foldl (λ m port, <[v1.Port port := port]> m) acc ports !! n = Some e →
  acc !! n = Some e ∨ (e ∈ ports ∧ v1.Port e = n).
Proof.
  revert acc. induction ports as [|p ports IH]; intros acc; simpl; [by left|].
  intros Hl. apply IH in Hl as [Hl|[Hin Hp]].
  - rewrite lookup_insert in Hl. case_decide as Hn; [|by left].
    injection Hl as <-. right. split; [left|done].
  - right. split; [by right|done].
Qed.

Lemma existingPorts_lookup_Some ports n e :
  existingPorts ports !! n = Some e → e ∈ ports ∧ v1.Port e = n.
Proof.
  intros Hl. apply existingPorts_foldl_lookup in Hl as [Hl|Hl]; [|done].
  by rewrite lookup_empty in Hl.
Qed.

Lemma existingPorts_foldl_is_Some (ports : list v1.ServicePort)
    (acc : gmap Z v1.ServicePort) n :
  (is_Some (acc !! n) ∨ ∃ e, e ∈ ports ∧ v1.Port e = n) →
  is_Some (foldl (λ m port, <[v1.Port port := port]> m) acc ports !! n).
Proof.
  revert acc. induction ports as [|p ports IH]; intros acc; simpl.
  { intros [Ha|(e & Hin & _)]; [done|by apply elem_of_nil in Hin]. }
  intros [Ha|(e & Hin & He)]; apply IH.
  - left. rewrite lookup_insert. by case_decide.
  - apply elem_of_cons in Hin as [->|Hin].
    + left. rewrite He, lookup_insert_eq. by eexists.
    + right. by exists e.
Qed.

Lemma existingPorts_lookup_None ports n :
  existingPorts ports !! n = None ↔ ∀ e, e ∈ ports → v1.Port e ≠ n.
Proof.
  split.
  - intros Hn e Hin He.
    assert (is_Some (existingPorts ports !! n)) as [? Hs]; [|congruence].
    apply existingPorts_foldl_is_Some. right. by exists e.
  - intros Hall. destruct (existingPorts ports !! n) as [e|] eqn:Hl; [|done].
    apply existingPorts_lookup_Some in Hl as [Hin He]. by destruct (Hall e).
Qed.

(** With pairwise distinct port numbers, a port's entry is the port. *)
Lemma existingPorts_lookup_unique ports e :
  NoDup (v1.Port <$> ports) → e ∈ ports →
  existingPorts ports !! v1.Port e = Some e.
Proof.
  intros Hnd Hin.
  destruct (existingPorts ports !! v1.Port e) as [e'|] eqn:Hl.
  - apply existingPorts_lookup_Some in Hl as [Hin' He'].
    f_equal. apply list_elem_of_lookup in Hin as [i Hi], Hin' as [j Hj].
    assert (i = j) as ->; [|congruence].
    eapply NoDup_lookup; [done|..]; rewrite list_lookup_fmap.
    + by rewrite Hi.
    + rewrite Hj. simpl. by rewrite He'.
  - rewrite existingPorts_lookup_None in Hl. by destruct (Hl e).
Qed.
(** *** The memory of port entries *)

Lemma PortMem_eq mem1 mem2 :
  primary mem1 = primary mem2 → basePorts mem1 = basePorts mem2 → mem1 = mem2.
Proof. destruct mem1, mem2; simpl; congruence. Qed.

Lemma deref_touch existing refs mem r :
  deref (touch existing refs mem) r =
    (if bool_decide (r ∈ refs) then resolve existing else id) <$> deref mem r.
Proof.
  destruct r as [|i]; simpl.
  - by case_bool_decide.
  - rewrite list_lookup_imap. by case_bool_decide.
Qed.

Lemma touch_singleton existing mem r p :
  deref mem r = Some p →
  touch existing [r] mem =
    match r with
    | PrimaryPort => {| primary := resolve existing p; basePorts := basePorts mem |}
    | BasePort i => {| primary := primary mem;
                       basePorts := alter (resolve existing) i (basePorts mem) |}
    end.
Proof.
  intros Hd. unfold touch.
  destruct r as [|i]; cbn [deref] in Hd; apply PortMem_eq; cbn [primary basePorts].
  - injection Hd as ->. by rewrite bool_decide_eq_true_2 by left.
  - apply list_eq. intros j. rewrite list_lookup_imap.
    rewrite bool_decide_eq_false_2; [by destruct (_ !! j)|].
    by intros [[=]|[]%elem_of_nil]%elem_of_cons.
  - rewrite bool_decide_eq_false_2; [done|].
    by intros [[=]|[]%elem_of_nil]%elem_of_cons.
  - apply list_eq. intros j. rewrite list_lookup_alter, list_lookup_imap.
    case_decide as Hij.
    + subst j. by rewrite bool_decide_eq_true_2 by left.
    + rewrite bool_decide_eq_false_2; [by destruct (_ !! j)|].
      intros [[=]|[]%elem_of_nil]%elem_of_cons. congruence.
Qed.

(** One step of the last loop visits the pointer. *)
Lemma wantedPorts_step existing mem r p :
  deref mem r = Some p →
  match existing !! v1.Port p with
  | Some existingPort => store_NodePort mem r (v1.NodePort existingPort)
  | None => mem
  end = touch existing [r] mem.
Proof.
  intros Hd. rewrite (touch_singleton _ _ _ p) by done.
  destruct (existing !! v1.Port p) as [e|] eqn:He.
  - destruct r as [|i]; cbn [deref store_NodePort] in *.
    + injection Hd as ->. unfold resolve. by rewrite He.
    + f_equal. apply list_eq. intros j. rewrite !list_lookup_alter.
      case_decide; [subst j|done]. rewrite Hd. simpl.
      unfold resolve. by rewrite He.
  - destruct r as [|i]; cbn [deref] in *; apply PortMem_eq; cbn [primary basePorts].
    + injection Hd as ->. unfold resolve. by rewrite He.
    + done.
    + done.
    + apply list_eq. intros j. rewrite list_lookup_alter.
      case_decide; [subst j|done]. rewrite Hd. simpl.
      unfold resolve. by rewrite He.
Qed.

Lemma bool_decide_elem_of_app r (refs1 refs2 : list PortRef) :
  bool_decide (r ∈ refs1 ++ refs2) = bool_decide (r ∈ refs1) || bool_decide (r ∈ refs2).
Proof.
  apply eq_true_iff_eq.
  rewrite orb_true_iff, !bool_decide_eq_true. apply elem_of_app.
Qed.

Lemma touch_touch existing refs1 refs2 mem :
  touch existing refs2 (touch existing refs1 mem) = touch existing (refs1 ++ refs2) mem.
Proof.
  apply PortMem_eq; cbn [touch primary basePorts].
  - rewrite bool_decide_elem_of_app.
    do 2 destruct (bool_decide _); by rewrite ?resolve_idemp.
  - apply list_eq. intros j. rewrite !list_lookup_imap.
    destruct (basePorts mem !! j) as [p|]; [simpl|done].
    rewrite bool_decide_elem_of_app.
    do 2 destruct (bool_decide _); by rewrite ?resolve_idemp.
Qed.

Lemma emit_touch existing refs mem entry :
  emit existing (touch existing refs mem) entry = emit existing mem entry.
Proof.
  unfold emit. rewrite deref_touch.
  destruct (deref mem entry.2) as [p|]; [simpl|done].
  case_bool_decide; [|done]. by rewrite resolve_idemp.
Qed.

(** The last loop: the memory is visited at every wanted pointer and the
    slice receives one resolved entry per wanted pointer, in visiting
    order. *)
Lemma wantedPorts_loop_spec existing (entries : list (Z * PortRef)) mem ports :
  (∀ entry, entry ∈ entries → is_Some (deref mem entry.2)) →
  wantedPorts_loop existing entries (mem, ports) =
    (touch existing entries.*2 mem, ports ++ (entries ≫= emit existing mem)).
Proof.
  unfold wantedPorts_loop.
  revert mem ports. induction entries as [|[k r] entries IH]; intros mem ports Hok.
  { simpl. rewrite app_nil_r. f_equal. apply PortMem_eq; cbn [touch primary basePorts].
    - by rewrite bool_decide_eq_false_2 by apply not_elem_of_nil.
    - apply list_eq. intros j. rewrite list_lookup_imap.
      rewrite bool_decide_eq_false_2 by apply not_elem_of_nil.
      by destruct (_ !! j). }
  destruct (Hok (k, r)) as [p Hp]; [left|]. simpl in Hp.
  cbn [foldl]. rewrite Hp, (wantedPorts_step _ _ _ p) by done.
  rewrite deref_touch, Hp, bool_decide_eq_true_2 by left. cbn [fmap option_fmap option_map].
  rewrite IH.
  - rewrite touch_touch. f_equal. rewrite <-(assoc_L (++)). f_equal.
    rewrite bind_cons. unfold emit at 2. cbn [snd]. rewrite Hp. simpl. f_equal.
    apply list_bind_ext; [|done]. intros entry. apply emit_touch.
  - intros entry Hin. rewrite deref_touch.
    destruct (Hok entry) as [? ->]; [by right|]. by eexists.
Qed.

(** *** The loop over the ports of the backend service *)

Lemma basePorts_loop_spec ap n mem0 (w0 : gmap Z PortRef) :
  n ≤ length (basePorts mem0) →
  ∃ wanted,
    basePorts_loop ap (seq 0 n) (mem0, w0) =
      ({| primary := primary mem0;
          basePorts := imap (λ j b, if bool_decide (j < n) then strip (int32 ap) b else b)
                            (basePorts mem0) |}, wanted)
    ∧ (∀ k i, wanted !! k = Some (BasePort i) →
         w0 !! k = Some (BasePort i)
         ∨ (i < n ∧ ∃ b, basePorts mem0 !! i = Some b ∧ v1.Port b = k ∧ k ≠ int32 ap))
    ∧ (∀ k, wanted !! k = Some PrimaryPort → w0 !! k = Some PrimaryPort)
    ∧ wanted !! int32 ap = w0 !! int32 ap
    ∧ (∀ i b, i < n → basePorts mem0 !! i = Some b → v1.Port b ≠ int32 ap →
         ∃ i', wanted !! v1.Port b = Some (BasePort i')).
Proof.
  induction n as [|n IH]; intros Hn.
  { exists w0. split_and!; [|by left|done|done|lia].
    simpl. f_equal. apply PortMem_eq; [done|]. simpl.
    apply list_eq. intros j. rewrite list_lookup_imap. by destruct (_ !! j). }
  destruct IH as (wanted & Hrun & W1 & W2 & W3 & W4); [lia|].
  unfold basePorts_loop in *. rewrite seq_S, foldl_app, Hrun. cbn [foldl basePorts].
  change (0 + n) with n. rewrite list_lookup_imap.
  destruct (lookup_lt_is_Some_2 (basePorts mem0) n) as [b Hb]; [lia|].
  rewrite Hb. cbn [fmap option_fmap option_map].
  rewrite (bool_decide_eq_false_2 (n < n)) by lia.
  case_bool_decide as HP.
  - exists wanted. split_and!.
    + f_equal. apply PortMem_eq; [done|]. cbn [basePorts].
      apply list_eq. intros j. rewrite !list_lookup_imap.
      destruct (basePorts mem0 !! j) as [b'|] eqn:Hj; [simpl|done].
      destruct (decide (j = n)) as [->|].
      * rewrite bool_decide_eq_false_2, bool_decide_eq_true_2 by lia.
        assert (b' = b) as -> by congruence.
        unfold strip. by rewrite bool_decide_eq_true_2.
      * f_equal. repeat case_bool_decide; done || lia.
    + intros k i Hk. destruct (W1 k i Hk) as [?|[? ?]]; [by left|right]. split; [lia|done].
    + done.
    + done.
    + intros i b' Hi Hb' Hne. destruct (decide (i = n)) as [->|].
      * congruence.
      * apply (W4 i); [lia|done..].
  - exists (<[v1.Port b := BasePort n]> wanted). split_and!.
    + f_equal. apply PortMem_eq; [done|]. cbn [store_NodePort basePorts].
      apply list_eq. intros j. rewrite list_lookup_alter, !list_lookup_imap.
      destruct (decide (n = j)) as [<-|Hjn].
      * rewrite Hb. simpl.
        rewrite (bool_decide_eq_false_2 (n < n)), (bool_decide_eq_true_2 (n < S n)) by lia.
        unfold strip. by rewrite bool_decide_eq_false_2.
      * destruct (basePorts mem0 !! j); [simpl|done].
        f_equal. repeat case_bool_decide; done || lia.
    + intros k i. rewrite lookup_insert. case_decide as Hk.
      * intros [= <-]. right. split; [lia|]. exists b. split_and!; congruence.
      * intros Hl. destruct (W1 k i Hl) as [?|[? ?]]; [by left|right]. split; [lia|done].
    + intros k. rewrite lookup_insert. case_decide; [done|]. apply W2.
    + by rewrite lookup_insert_ne.
    + intros i b' Hi Hb' Hne. rewrite lookup_insert. case_decide; [by eexists|].
      destruct (decide (i = n)) as [->|]; [congruence|].
      apply (W4 i); [lia|done..].
Qed.

(** *** The state before the last loop *)

Lemma portsForService_setup_spec svc app opts baseSvc :
  let P := int32 (additionalPort opts) in
  ∃ wanted,
    portsForService_setup svc app opts baseSvc =
      (existingPorts (v1.Ports (v1.Spec svc)),
       ({| primary := primaryPort app (additionalPort opts);
           basePorts := if exposesAll opts baseSvc
                        then strip P <$> baseSvcPorts baseSvc
                        else baseSvcPorts baseSvc |}, wanted))
    ∧ wanted !! P = Some PrimaryPort
    ∧ (∀ k, wanted !! k = Some PrimaryPort → k = P)
    ∧ (∀ k i, wanted !! k = Some (BasePort i) →
         exposesAll opts baseSvc = true
         ∧ ∃ b, baseSvcPorts baseSvc !! i = Some b ∧ v1.Port b = k ∧ k ≠ P)
    ∧ (exposesAll opts baseSvc = true →
       ∀ b, b ∈ baseSvcPorts baseSvc → v1.Port b ≠ P →
            ∃ i, wanted !! v1.Port b = Some (BasePort i)).
Proof.
  intros P. unfold portsForService_setup, exposesAll.
  assert (∀ k, ({[P := PrimaryPort]} : gmap Z PortRef) !! k = Some PrimaryPort → k = P) as Hs1.
  { intros k. rewrite lookup_singleton. by case_decide. }
  assert (∀ k i, ({[P := PrimaryPort]} : gmap Z PortRef) !! k ≠ Some (BasePort i)) as Hs2.
  { intros k i. rewrite lookup_singleton. by case_decide. }
  destruct baseSvc as [web|]; cbn [baseSvcPorts];
    [destruct (strconv.ParseBool _).1|]; cbn [andb basePorts].
  - destruct (basePorts_loop_spec (additionalPort opts) (length (v1.Ports (v1.Spec web)))
                {| primary := primaryPort app (additionalPort opts);
                   basePorts := v1.Ports (v1.Spec web) |} {[P := PrimaryPort]})
      as (wanted & Hrun & W1 & W2 & W3 & W4); [done|].
    cbn [basePorts primary] in *. fold P in Hrun, W1, W2, W3, W4 |- *.
    exists wanted. rewrite bool_decide_eq_true_2 by (by eexists). split_and!.
    + rewrite Hrun. do 3 f_equal. apply list_eq. intros j.
      rewrite list_lookup_imap, list_lookup_fmap.
      destruct (v1.Ports (v1.Spec web) !! j) eqn:Hj; [simpl|done].
      apply lookup_lt_Some in Hj. by rewrite bool_decide_eq_true_2.
    + by rewrite W3, lookup_singleton_eq.
    + intros k Hk. by apply Hs1, W2.
    + intros k i Hk. split; [done|].
      destruct (W1 k i Hk) as [Hk'|[_ ?]]; [by apply Hs2 in Hk'|done].
    + intros _ b [i Hi]%list_elem_of_lookup Hne.
      apply (W4 i); [by eapply lookup_lt_Some|done..].
  - exists {[P := PrimaryPort]}.
    split_and!; [done|by rewrite lookup_singleton_eq|exact Hs1| |done].
    intros k i Hk. by apply Hs2 in Hk.
  - exists {[P := PrimaryPort]}.
    rewrite (bool_decide_eq_false_2 (is_Some None)), andb_false_r by (by intros [? ?]).
    split_and!; [done|by rewrite lookup_singleton_eq|exact Hs1| |done].
    intros k i Hk. by apply Hs2 in Hk.
Qed.

(** Every wanted pointer leads to a port entry with the key as its
    number and without a node port. *)
Lemma wanted_deref svc app opts baseSvc existing mem wanted k r :
  portsForService_setup svc app opts baseSvc = (existing, (mem, wanted)) →
  wanted !! k = Some r →
  ∃ p, deref mem r = Some p ∧ v1.Port p = k ∧ v1.NodePort p = 0%Z.
Proof.
  intros Hsetup Hk.
  destruct (portsForService_setup_spec svc app opts baseSvc)
    as (wanted' & Heq & _ & HP & HB & _).
  rewrite Hsetup in Heq. injection Heq as -> -> <-.
  destruct r as [|i]; cbn [deref primary basePorts].
  - eexists. split; [done|]. split; [|done]. simpl. symmetry. by apply HP.
  - destruct (HB k i Hk) as (-> & b & Hb & Hkb & Hne).
    rewrite list_lookup_fmap, Hb. eexists. split; [done|].
    unfold strip. rewrite bool_decide_eq_false_2 by congruence. done.
Qed.

Lemma emit_Ports existing mem (entries : list (Z * PortRef)) :
  (∀ k r, (k, r) ∈ entries → ∃ p, deref mem r = Some p ∧ v1.Port p = k) →
  v1.Port <$> (entries ≫= emit existing mem) = entries.*1.
Proof.
  induction entries as [|[k r] entries IH]; intros Hok; [done|].
  rewrite bind_cons, fmap_app, IH.
  - destruct (Hok k r) as (p & Hp & Hk); [left|].
    unfold emit. cbn [snd]. rewrite Hp. simpl. by rewrite resolve_Port, Hk.
  - intros k' r' Hin. apply Hok. by right.
Qed.

Lemma elem_of_emit existing mem (entries : list (Z * PortRef)) q :
  q ∈ entries ≫= emit existing mem ↔
  ∃ k r p, (k, r) ∈ entries ∧ deref mem r = Some p ∧ q = resolve existing p.
Proof.
  rewrite list_elem_of_bind. split.
  - intros ([k r] & Hq & Hin). unfold emit in Hq. cbn [snd] in Hq.
    destruct (deref mem r) as [p|] eqn:Hp; [|by apply elem_of_nil in Hq].
    apply list_elem_of_singleton in Hq. by exists k, r, p.
  - intros (k & r & p & Hin & Hp & ->). exists (k, r). split; [|done].
    unfold emit. cbn [snd]. rewrite Hp. left.
Qed.

(** *** Sorting *)

Global Instance port_le_trans : Transitive port_le.
Proof. unfold port_le. intros p q r. lia. Qed.

Global Instance port_le_total : Total port_le.
Proof. unfold port_le. intros p q. lia. Qed.

Global Instance port_lt_antisymm : AntiSymm (=) port_lt.
Proof. unfold port_lt. intros p q. lia. Qed.

Lemma sortSlice_Permutation ports : sortSlice ports ≡ₚ ports.
Proof. apply merge_sort_Permutation. Qed.

Lemma StronglySorted_port_lt (ports : list v1.ServicePort) :
  StronglySorted port_le ports → NoDup (v1.Port <$> ports) →
  StronglySorted port_lt ports.
Proof.
  induction 1 as [|p ports Hs IH Hall]; intros Hnd; [constructor|].
  rewrite fmap_cons in Hnd. apply NoDup_cons in Hnd as [Hp Hnd].
  constructor; [by apply IH|].
  apply Forall_forall. intros q Hq.
  rewrite Forall_forall in Hall. specialize (Hall q Hq).
  unfold port_le, port_lt in *.
  assert (v1.Port q ≠ v1.Port p); [|lia].
  intros Heq. apply Hp. rewrite <-Heq. by apply list_elem_of_fmap_2.
Qed.

(** On pairwise distinct port numbers the sorted slice is strictly
    ascending. *)
Lemma sortSlice_sorted ports :
  NoDup (v1.Port <$> ports) → StronglySorted port_lt (sortSlice ports).
Proof.
  intros Hnd. apply StronglySorted_port_lt.
  - apply StronglySorted_merge_sort; apply _.
  - by rewrite sortSlice_Permutation.
Qed.

(** ... and every visiting order yields the same slice. *)
Lemma sortSlice_order ports1 ports2 :
  NoDup (v1.Port <$> ports1) → ports1 ≡ₚ ports2 → sortSlice ports1 = sortSlice ports2.
Proof.
  intros Hnd Hp. apply (StronglySorted_unique port_lt).
  - by apply sortSlice_sorted.
  - apply sortSlice_sorted. by rewrite <-Hp.
  - by rewrite !sortSlice_Permutation.
Qed.
(** *** The resolver as a whole *)

Lemma portsForService_in_spec (range : gmap Z PortRef → list (Z * PortRef))
    svc app opts baseSvc existing mem wanted :
  (∀ m, range m ≡ₚ map_to_list m) →
  portsForService_setup svc app opts baseSvc = (existing, (mem, wanted)) →
  portsForService_in range svc app opts baseSvc =
    (sortSlice (range wanted ≫= emit existing mem),
     (λ b, v1.set_Ports b (basePorts (touch existing (range wanted).*2 mem))) <$> baseSvc)
  ∧ NoDup (v1.Port <$> (range wanted ≫= emit existing mem)).
Proof.
  intros Hrange Hsetup.
  assert (∀ k r, (k, r) ∈ range wanted →
            ∃ p, deref mem r = Some p ∧ v1.Port p = k) as Hderef.
  { intros k r Hin. rewrite Hrange in Hin. apply elem_of_map_to_list in Hin.
    destruct (wanted_deref _ _ _ _ _ _ _ _ _ Hsetup Hin) as (p & ? & ? & _). by exists p. }
  split.
  - unfold portsForService_in. rewrite Hsetup.
    rewrite wantedPorts_loop_spec; [done|].
    intros [k r] Hin. destruct (Hderef k r Hin) as (p & Hp & _). by exists p.
  - rewrite emit_Ports by done. rewrite Hrange. apply NoDup_fst_map_to_list.
Qed.

Lemma touch_Permutation existing (refs1 refs2 : list PortRef) mem :
  refs1 ≡ₚ refs2 → touch existing refs1 mem = touch existing refs2 mem.
Proof.
  intros Hp. unfold touch. f_equal.
  - by rewrite (bool_decide_ext _ (PrimaryPort ∈ refs2)) by (by rewrite Hp).
  - apply imap_ext. intros i p _.
    by rewrite (bool_decide_ext _ (BasePort i ∈ refs2)) by (by rewrite Hp).
Qed.

(** The resolver does not depend on the order in which the range visits
    [wantedPorts]: neither the returned slice nor what is left in the
    backend service. *)
Lemma portsForService_order (range : gmap Z PortRef → list (Z * PortRef))
    svc app opts baseSvc :
  (∀ m, range m ≡ₚ map_to_list m) →
  portsForService_in range svc app opts baseSvc = portsForService svc app opts baseSvc.
Proof.
  intros Hrange.
  destruct (portsForService_setup svc app opts baseSvc) as [existing [mem wanted]] eqn:Hsetup.
  destruct (portsForService_in_spec range _ _ _ _ _ _ _ Hrange Hsetup) as [-> Hnd].
  unfold portsForService.
  destruct (portsForService_in_spec map_to_list _ _ _ _ _ _ _ (λ _, reflexivity _) Hsetup)
    as [-> _].
  f_equal.
  - apply sortSlice_order; [done|]. by rewrite Hrange.
  - by rewrite (touch_Permutation _ _ (map_to_list wanted).*2) by (by rewrite Hrange).
Qed.

(** The returned slice, entry by entry. *)
Lemma elem_of_portsForService svc app opts baseSvc existing mem wanted q :
  portsForService_setup svc app opts baseSvc = (existing, (mem, wanted)) →
  q ∈ (portsForService svc app opts baseSvc).1 ↔
  ∃ k r p, wanted !! k = Some r ∧ deref mem r = Some p ∧ q = resolve existing p.
Proof.
  intros Hsetup. unfold portsForService.
  destruct (portsForService_in_spec map_to_list _ _ _ _ _ _ _ (λ _, reflexivity _) Hsetup)
    as [-> _].
  cbn [fst]. rewrite sortSlice_Permutation, elem_of_emit.
  by setoid_rewrite elem_of_map_to_list.
Qed.

Lemma portsForService_StronglySorted svc app opts baseSvc :
  StronglySorted port_lt (portsForService svc app opts baseSvc).1.
Proof.
  destruct (portsForService_setup svc app opts baseSvc) as [existing [mem wanted]] eqn:Hsetup.
  unfold portsForService.
  destruct (portsForService_in_spec map_to_list _ _ _ _ _ _ _ (λ _, reflexivity _) Hsetup)
    as [-> Hnd].
  by apply sortSlice_sorted.
Qed.

(** The entries of the returned slice: the one built for the exposed
    port and, when all ports are exposed, entries of the backend
    service. *)
Lemma portsForService_entries svc app opts baseSvc :
  let P := int32 (additionalPort opts) in
  let existing := existingPorts (v1.Ports (v1.Spec svc)) in
  let ports := (portsForService svc app opts baseSvc).1 in
  resolve existing (primaryPort app (additionalPort opts)) ∈ ports
  ∧ (∀ q, q ∈ ports →
       q = resolve existing (primaryPort app (additionalPort opts))
       ∨ (exposesAll opts baseSvc = true
          ∧ v1.Port q ≠ P
          ∧ ∃ b, b ∈ baseSvcPorts baseSvc ∧ v1.Port b = v1.Port q
                 ∧ q = resolve existing (v1.set_NodePort b 0)))
  ∧ (∀ b, exposesAll opts baseSvc = true → b ∈ baseSvcPorts baseSvc →
          v1.Port b ≠ P → ∃ q, q ∈ ports ∧ v1.Port q = v1.Port b).
Proof.
  intros P existing ports.
  destruct (portsForService_setup_spec svc app opts baseSvc)
    as (wanted & Hsetup & HP & HP' & HB & HB').
  fold P in Hsetup, HP, HP', HB, HB'.
  split_and!.
  - apply (elem_of_portsForService _ _ _ _ _ _ _ _ Hsetup).
    by exists P, PrimaryPort, (primaryPort app (additionalPort opts)).
  - intros q (k & r & p & Hk & Hp & ->)%(elem_of_portsForService _ _ _ _ _ _ _ _ Hsetup).
    destruct r as [|i]; cbn [deref primary basePorts] in Hp.
    + left. by injection Hp as <-.
    + right. destruct (HB k i Hk) as (Hall & b & Hb & Hkb & Hne).
      rewrite Hall, list_lookup_fmap, Hb in Hp. injection Hp as <-.
      unfold strip. rewrite bool_decide_eq_false_2 by congruence.
      split; [done|]. rewrite resolve_Port, set_NodePort_Port.
      split; [congruence|]. exists b. split; [by eapply list_elem_of_lookup_2|done].
  - intros b Hall Hb Hne. destruct (HB' Hall b Hb Hne) as [i Hi].
    destruct (wanted_deref _ _ _ _ _ _ _ _ _ Hsetup Hi) as (p & Hp & Hport & _).
    exists (resolve existing p). split; [|by rewrite resolve_Port].
    apply (elem_of_portsForService _ _ _ _ _ _ _ _ Hsetup). by exists (v1.Port b), (BasePort i), p.
Qed.

(** *** The exposed port *)

Lemma Atoi_syntax_error s :
  (strconv.Atoi s).2 = Some strconv.ErrSyntax → (strconv.Atoi s).1 = 0%Z.
Proof.
  unfold strconv.Atoi, strconv.ParseInt.
  destruct s as [|c rest]; [done|].
  destruct (strconv.ParseUint _) as [un [[]|]]; [done|..];
    repeat (match goal with |- context [if ?b then _ else _] => destruct b end; try done).
Qed.

Example Atoi_examples :
  strconv.Atoi "" = (0%Z, Some strconv.ErrSyntax)
  ∧ strconv.Atoi "8080" = (8080%Z, None)
  ∧ strconv.Atoi "+443" = (443%Z, None)
  ∧ strconv.Atoi "-5" = ((-5)%Z, None)
  ∧ strconv.Atoi "80a" = (0%Z, Some strconv.ErrSyntax)
  ∧ strconv.Atoi "8_0" = (0%Z, Some strconv.ErrSyntax)
  ∧ strconv.Atoi "-" = (0%Z, Some strconv.ErrSyntax)
  ∧ strconv.Atoi "9223372036854775807" = ((2 ^ 63 - 1)%Z, None)
  ∧ strconv.Atoi "9223372036854775808" = ((2 ^ 63 - 1)%Z, Some strconv.ErrRange)
  ∧ strconv.Atoi "-9223372036854775808" = ((- 2 ^ 63)%Z, None)
  ∧ strconv.Atoi "-9223372036854775809" = ((- 2 ^ 63)%Z, Some strconv.ErrRange)
  ∧ strconv.Atoi "99999999999999999999999" = ((2 ^ 63 - 1)%Z, Some strconv.ErrRange).
Proof. by vm_compute. Qed.

(** X26: the exposed port is 80 when [exposedPort] is empty or otherwise
    a syntax error for the parser, and when it parses to zero, and the
    parsed number when it parses to another one; the slice holds the
    entry built for the exposed port (named after it, TCP, targeting the
    application's port) and, when all ports are exposed and there is a
    backend service, an entry for every backend port number other than
    the exposed port, taken from a backend port entry; no other entry;
    and it is strictly ascending by port number.  (Nothing is said here
    of an [exposedPort] on which the parser reports a range error.) *)
Theorem portsForService_wanted svc app opts baseSvc :
  let parsed := strconv.Atoi (router.ExposedPort opts) in
  let n := additionalPort opts in
  let P := int32 n in
  let existing := existingPorts (v1.Ports (v1.Spec svc)) in
  let primary := resolve existing (primaryPort app n) in
  let ports := (portsForService svc app opts baseSvc).1 in
  (parsed.2 = Some strconv.ErrSyntax → n = 80%Z)
  ∧ (parsed.2 = None → n = if bool_decide (parsed.1 = 0%Z) then 80%Z else parsed.1)
  ∧ primary ∈ ports
  ∧ v1.Name primary = "port-" +:+ pretty n
  ∧ v1.Protocol primary = "TCP"
  ∧ v1.Port primary = P
  ∧ v1.TargetPort primary = intstr.FromInt (getAppServicePort app)
  ∧ (∀ q, q ∈ ports →
       q = primary
       ∨ (exposesAll opts baseSvc = true
          ∧ v1.Port q ≠ P
          ∧ ∃ b, b ∈ baseSvcPorts baseSvc ∧ v1.Port b = v1.Port q
                 ∧ q = resolve existing (v1.set_NodePort b 0)))
  ∧ (∀ b, exposesAll opts baseSvc = true → b ∈ baseSvcPorts baseSvc →
          v1.Port b ≠ P → ∃ q, q ∈ ports ∧ v1.Port q = v1.Port b)
  ∧ StronglySorted port_lt ports.
Proof.
  intros parsed n P existing primary ports.
  destruct (portsForService_entries svc app opts baseSvc) as (Hprim & Hall & Hbase).
  split_and!; try done.
  - intros Herr. subst n. unfold additionalPort. fold parsed.
    apply Atoi_syntax_error in Herr. fold parsed in Herr. by rewrite Herr.
  - intros _. subst n. unfold additionalPort. fold parsed.
    case_bool_decide as Hz.
    + by rewrite Hz.
    + apply Z.eqb_neq in Hz. by rewrite Hz.
  - subst primary. unfold resolve. by destruct (existing !! _).
  - subst primary. unfold resolve. by destruct (existing !! _).
  - subst primary. by rewrite resolve_Port.
  - subst primary. unfold resolve. by destruct (existing !! _).
  - apply portsForService_StronglySorted.
Qed.

(** *** Node ports *)

(** C4: an entry of the returned slice whose port number exists on the
    balancer service has the node port of that existing port (the last
    one with the number; the only one when port numbers are distinct),
    and any other entry has none: node ports of the backend service
    never reach the slice. *)
Theorem portsForService_nodePorts svc app opts baseSvc q :
  q ∈ (portsForService svc app opts baseSvc).1 →
  v1.NodePort q =
    match existingPorts (v1.Ports (v1.Spec svc)) !! v1.Port q with
    | Some e => v1.NodePort e
    | None => 0%Z
    end
  ∧ (∀ e, NoDup (v1.Port <$> v1.Ports (v1.Spec svc)) →
          e ∈ v1.Ports (v1.Spec svc) → v1.Port e = v1.Port q →
          v1.NodePort q = v1.NodePort e)
  ∧ ((∀ e, e ∈ v1.Ports (v1.Spec svc) → v1.Port e ≠ v1.Port q) → v1.NodePort q = 0%Z).
Proof.
  intros Hq.
  destruct (portsForService_setup_spec svc app opts baseSvc) as (wanted & Hsetup & _).
  destruct (proj1 (elem_of_portsForService _ _ _ _ _ _ _ _ Hsetup) Hq)
    as (k & r & p & Hk & Hp & ->).
  destruct (wanted_deref _ _ _ _ _ _ _ _ _ Hsetup Hk) as (p' & Hp' & _ & Hzero).
  assert (p' = p) as -> by congruence.
  rewrite resolve_NodePort, resolve_Port, Hzero.
  split_and!; [done|..].
  - intros e Hnd He Hport. rewrite <-Hport.
    by rewrite existingPorts_lookup_unique.
  - intros Hnone. apply existingPorts_lookup_None in Hnone. by rewrite Hnone.
Qed.
End Ports.

(** C3: the fallback to 80 misses an [exposedPort] on which the parser
    reports a range error.  [portsForService] drops the error of
    [strconv.Atoi] and tests the returned number against zero; for a
    syntax error that number is zero and the port is 80 (as for ["80x"]),
    but for a decimal too large for 64 bits, with or without bytes after
    the digits that overflow, it is the largest [int]: the entry is named
    after it and its port is the low 32 bits, -1. *)
Lemma portsForService_exposedPort_out_of_range :
  let lb := Sample.lb "app" ∅ ∅ [] [] in
  let opts := Sample.opts "" "9223372036854775808" ∅ in
  let trailing := Sample.opts "" "99999999999999999999x" ∅ in
  let syntax := Sample.opts "" "80x" ∅ in
  strconv.Atoi (router.ExposedPort opts) = ((2 ^ 63 - 1)%Z, Some strconv.ErrRange)
  ∧ strconv.Atoi (router.ExposedPort trailing) = ((2 ^ 63 - 1)%Z, Some strconv.ErrRange)
  ∧ strconv.Atoi (router.ExposedPort syntax) = (0%Z, Some strconv.ErrSyntax)
  ∧ additionalPort opts ≠ 80%Z
  ∧ (portsForService lb None opts None).1
    = [ {| v1.Name := "port-9223372036854775807"; v1.Protocol := "TCP";
           v1.Port := (-1)%Z; v1.TargetPort := intstr.IntVal 8888;
           v1.NodePort := 0%Z |} ]
  ∧ (portsForService lb None trailing None).1 = (portsForService lb None opts None).1
  ∧ (portsForService lb None syntax None).1 = [ Sample.port "port-80" 80 8888 0 ].
Proof. split_and!; [by vm_compute..]. Qed.

(** The example of the specification: exposed port 8080, backend ports
    80, 8080 and 443, all ports exposed. *)
Example portsForService_example :
  (portsForService (Sample.lb "blue" ∅ ∅ [] []) None Sample.allPorts (Some Sample.web)).1
  = [ Sample.port "http" 80 8000 0;
      Sample.port "https" 443 8443 0;
      Sample.port "port-8080" 8080 8888 0 ].
Proof. by vm_compute. Qed.

Lemma portsForService_nodePorts_witness :
  let svc := Sample.lb "app" ∅ ∅ [ Sample.port "port-80" 80 8888 30080 ] [] in
  let q := Sample.port "port-80" 80 8888 30080 in
  q ∈ (portsForService svc None (Sample.opts "" "" ∅) None).1
  ∧ v1.NodePort q =
      match existingPorts (v1.Ports (v1.Spec svc)) !! v1.Port q with
      | Some e => v1.NodePort e
      | None => 0%Z
      end.
Proof.
  intros svc q.
  assert (q ∈ (portsForService svc None (Sample.opts "" "" ∅) None).1) as Hq.
  { vm_compute. left. }
  split; [exact Hq|].
  exact (proj1 (portsForService_nodePorts svc None (Sample.opts "" "" ∅) None q Hq)).
Defined.

(** ** What the resolver leaves in the backend service *)

Section BackendPorts.
Context `{Externals}.
Implicit Types (existing : gmap Z v1.ServicePort) (mem : PortMem)
               (p q : v1.ServicePort) (r : PortRef).

Lemma set_Ports_id (b : v1.Service) : v1.set_Ports b (v1.Ports (v1.Spec b)) = b.
Proof. by destruct b as [? [] ?]. Qed.

(** What the resolver leaves in the backend service: its port entries,
    in place, with no field changed but the node port; nothing changes
    unless all ports are exposed, and then only in entries whose number
    is not the exposed port. *)
Lemma portsForService_baseSvc svc app opts baseSvc :
  let P := int32 (additionalPort opts) in
  let existing := existingPorts (v1.Ports (v1.Spec svc)) in
  ∃ ports',
    (portsForService svc app opts baseSvc).2 = (λ b, v1.set_Ports b ports') <$> baseSvc
    ∧ length ports' = length (baseSvcPorts baseSvc)
    ∧ (exposesAll opts baseSvc = false → ports' = baseSvcPorts baseSvc)
    ∧ (∀ i b, baseSvcPorts baseSvc !! i = Some b →
         ∃ b', ports' !! i = Some b'
           ∧ (b' = b
              ∨ (exposesAll opts baseSvc = true ∧ v1.Port b ≠ P
                 ∧ (b' = v1.set_NodePort b 0
                    ∨ b' = resolve existing (v1.set_NodePort b 0))))).
Proof.
  intros P existing.
  destruct (portsForService_setup_spec svc app opts baseSvc)
    as (wanted & Hsetup & _ & _ & HB & _).
  fold P existing in Hsetup, HB.
  unfold portsForService.
  destruct (portsForService_in_spec map_to_list _ _ _ _ _ _ _ (λ _, reflexivity _) Hsetup)
    as [-> _].
  eexists. split; [done|]. cbn [touch basePorts].
  split_and!.
  - rewrite length_imap. destruct (exposesAll _ _); [by rewrite length_fmap|done].
  - intros Hno. rewrite Hno. apply list_eq. intros i. rewrite list_lookup_imap.
    destruct (baseSvcPorts baseSvc !! i) as [b|]; [simpl|done].
    rewrite bool_decide_eq_false_2; [done|].
    intros ([k r] & Hr & Hin%elem_of_map_to_list)%list_elem_of_fmap. simpl in Hr. subst r.
    destruct (HB k i Hin) as [Hall _]. congruence.
  - intros i b Hb. rewrite list_lookup_imap.
    destruct (exposesAll opts baseSvc) eqn:Hall.
    + rewrite list_lookup_fmap, Hb. cbn [fmap option_fmap option_map].
      eexists. split; [reflexivity|].
      unfold strip. destruct (decide (v1.Port b = P)) as [HP|HP].
      * left. rewrite (bool_decide_eq_true_2 _ HP).
        rewrite bool_decide_eq_false_2; [done|].
        intros ([k r] & Hr & Hin%elem_of_map_to_list)%list_elem_of_fmap.
        simpl in Hr. subst r.
        destruct (HB k i Hin) as (_ & b0 & Hb0 & Hk & Hne). congruence.
      * right. rewrite (bool_decide_eq_false_2 _ HP).
        split; [done|]. split; [done|]. case_bool_decide; [by right|by left].
    + rewrite Hb. cbn [fmap option_fmap option_map].
      eexists. split; [reflexivity|]. left.
      rewrite bool_decide_eq_false_2; [done|].
      intros ([k r] & Hr & Hin%elem_of_map_to_list)%list_elem_of_fmap. simpl in Hr. subst r.
      destruct (HB k i Hin) as [? _]. congruence.
Qed.
(** A pointer into the backend ports that is still wanted after the loop
    over them is the one stored last for its port number. *)
Lemma basePorts_loop_last ap n mem0 (w0 : gmap Z PortRef) k i :
  n ≤ length (basePorts mem0) →
  (basePorts_loop ap (seq 0 n) (mem0, w0)).2 !! k = Some (BasePort i) →
  w0 !! k = Some (BasePort i)
  ∨ ∀ j b, i < j < n → basePorts mem0 !! j = Some b → v1.Port b ≠ k.
Proof.
  revert i. induction n as [|n IH]; intros i Hn; [by left|].
  destruct (basePorts_loop_spec ap n mem0 w0) as (wanted & Hrun & W1 & _); [lia|].
  unfold basePorts_loop in *. rewrite seq_S, foldl_app, Hrun. cbn [foldl basePorts].
  rewrite Hrun in IH. cbn [snd] in IH.
  change (0 + n) with n. rewrite list_lookup_imap.
  destruct (lookup_lt_is_Some_2 (basePorts mem0) n) as [b Hb]; [lia|].
  rewrite Hb. cbn [fmap option_fmap option_map].
  rewrite (bool_decide_eq_false_2 (n < n)) by lia.
  case_bool_decide as HP; cbn [snd].
  - intros Hk. destruct (IH i) as [?|Hlast]; [lia|done|by left|].
    destruct (W1 k i Hk) as [?|(_ & _ & _ & _ & Hne)]; [by left|].
    right. intros j b' Hj Hb'. destruct (decide (j = n)) as [->|].
    + congruence.
    + apply (Hlast j); [lia|done].
  - rewrite lookup_insert. case_decide as Hkb.
    + intros [= <-]. right. intros j b' Hj. lia.
    + intros Hk. destruct (IH i) as [?|Hlast]; [lia|done|by left|].
      right. intros j b' Hj Hb'. destruct (decide (j = n)) as [->|].
      * congruence.
      * apply (Hlast j); [lia|done].
Qed.

Lemma portsForService_setup_last svc app opts baseSvc existing mem wanted k i :
  portsForService_setup svc app opts baseSvc = (existing, (mem, wanted)) →
  wanted !! k = Some (BasePort i) →
  ∀ j b, i < j → baseSvcPorts baseSvc !! j = Some b → v1.Port b ≠ k.
Proof.
  unfold portsForService_setup.
  assert (∀ k i, ({[int32 (additionalPort opts) := PrimaryPort]} : gmap Z PortRef) !! k
                 ≠ Some (BasePort i)) as Hs.
  { intros k' i'. rewrite lookup_singleton. by case_decide. }
  destruct baseSvc as [web|]; [destruct (strconv.ParseBool _).1|].
  - intros [= _ Hloop] Hk j b Hj Hb. cbn [baseSvcPorts] in Hb.
    apply (f_equal snd) in Hloop. cbn [snd] in Hloop. subst wanted.
    eapply basePorts_loop_last in Hk as [Hk|Hlast]; [by apply Hs in Hk| |done].
    cbn [basePorts] in Hlast. apply (Hlast j); [|done].
    split; [done|]. by eapply lookup_lt_Some.
  - intros [= _ _ <-] Hk. by apply Hs in Hk.
  - intros [= _ _ <-] Hk. by apply Hs in Hk.
Qed.

(** What the resolver leaves in the backend service when all ports are
    exposed, entry by entry. *)
Lemma portsForService_baseSvc_exposed svc app opts (web : v1.Service) :
  exposesAll opts (Some web) = true →
  ∃ ports',
    (portsForService svc app opts (Some web)).2 = Some (v1.set_Ports web ports')
    ∧ ∀ i b, v1.Ports (v1.Spec web) !! i = Some b →
        ports' !! i = Some
          (if bool_decide (v1.Port b = int32 (additionalPort opts)) then b
           else if bool_decide (v1.Port b ∈ v1.Port <$> drop (S i) (v1.Ports (v1.Spec web)))
                then v1.set_NodePort b 0
                else resolve (existingPorts (v1.Ports (v1.Spec svc))) (v1.set_NodePort b 0)).
Proof.
  intros Hall.
  destruct (portsForService_setup_spec svc app opts (Some web))
    as (wanted & Hsetup & _ & _ & HB & HB').
  rewrite Hall in Hsetup. cbn [baseSvcPorts] in Hsetup, HB, HB'.
  pose proof (λ k i, portsForService_setup_last _ _ _ _ _ _ _ k i Hsetup) as Hlast.
  cbn [baseSvcPorts] in Hlast.
  unfold portsForService.
  destruct (portsForService_in_spec map_to_list _ _ _ _ _ _ _ (λ _, reflexivity _) Hsetup)
    as [-> _].
  eexists. split; [done|]. cbn [touch basePorts].
  intros i b Hb. rewrite list_lookup_imap, list_lookup_fmap, Hb.
  cbn [fmap option_fmap option_map]. f_equal. unfold strip.
  destruct (decide (v1.Port b = int32 (additionalPort opts))) as [HP|HP].
  { rewrite !(bool_decide_eq_true_2 _ HP).
    rewrite bool_decide_eq_false_2; [done|].
    intros ([k r] & Hr & Hin%elem_of_map_to_list)%list_elem_of_fmap.
    simpl in Hr. subst r.
    destruct (HB k i Hin) as (_ & b0 & Hb0 & Hk & Hne). congruence. }
  rewrite !(bool_decide_eq_false_2 _ HP).
  destruct (decide (v1.Port b ∈ v1.Port <$> drop (S i) (v1.Ports (v1.Spec web))))
    as [Hlater|Hlater].
  - rewrite (bool_decide_eq_true_2 _ Hlater).
    rewrite bool_decide_eq_false_2; [done|].
    intros ([k r] & Hr & Hin%elem_of_map_to_list)%list_elem_of_fmap.
    simpl in Hr. subst r.
    destruct (HB k i Hin) as (_ & b0 & Hb0 & Hk & Hne).
    assert (b0 = b) as -> by congruence.
    apply list_elem_of_fmap in Hlater as (c & Hc & [j Hj]%list_elem_of_lookup).
    rewrite lookup_drop in Hj.
    apply (Hlast k i Hin (S i + j) c); [lia|done|congruence].
  - rewrite (bool_decide_eq_false_2 _ Hlater).
    rewrite bool_decide_eq_true_2; [done|].
    destruct (HB' Hall b) as [i' Hi']; [by eapply list_elem_of_lookup_2|done|].
    destruct (HB _ _ Hi') as (_ & b0 & Hb0 & Hk & Hne).
    assert (i' = i) as ->.
    { destruct (Nat.lt_trichotomy i i') as [Hlt|[->|Hgt]]; [|done|].
      - exfalso. apply Hlater. apply list_elem_of_fmap. exists b0. split; [done|].
        apply list_elem_of_lookup. exists (i' - S i). rewrite lookup_drop.
        by replace (S i + (i' - S i)) with i' by lia.
      - exfalso. by apply (Hlast _ _ Hi' i b). }
    apply list_elem_of_fmap. exists (v1.Port b, BasePort i). split; [done|].
    by apply elem_of_map_to_list.
Qed.

End BackendPorts.

(** ** The swap protocol *)

Section Protocol.
Context `{Externals} {W : Type}.
Variable handle : ∀ r : Request, W → Response r * W.

Ltac unfold_prog :=
  cbn [run bind mbind mret Prog_bind Prog_ret call getLBService].

Ltac run_step :=
  unfold_prog;
  match goal with
  | |- context [handle ?r ?w] =>
      let x := fresh "x" in let w1 := fresh "w" in
      destruct (handle r w) as [x w1]; cbn [Response] in x
  end.

Lemma swap_swap_Selector src dst :
  v1.Selector (v1.Spec (swap (swap src dst).1 (swap src dst).2).1)
  = v1.Selector (v1.Spec src).
Proof.
  unfold swap. cbn.
  destruct (BaseService_swap _ _) as [m1 m2]. cbn.
  by destruct (BaseService_swap _ _) as [m3 m4].
Qed.

Lemma swap_ObjectMeta src dst :
  v1.ObjectMeta (swap src dst).1 = (BaseService_swap (v1.ObjectMeta src) (v1.ObjectMeta dst)).1
  ∧ v1.ObjectMeta (swap src dst).2 = (BaseService_swap (v1.ObjectMeta src) (v1.ObjectMeta dst)).2.
Proof. unfold swap. cbn. by destruct (BaseService_swap _ _). Qed.

(** C1: when the first update of a [Swap] succeeds and the second
    fails, exactly one more update follows: of the first service, in the
    same namespace, after the selectors and the swap metadata were
    swapped back, so with the selector the service was fetched with; the
    call returns an error, and when that update fails too the error
    reports both failures. *)
Theorem Swap_rollback w appSrc appDst err w' t ns1 s1 ns2 s2 e2 rest :
  run handle (Swap appSrc appDst) w = (err, w', t) →
  updates t = (ns1, s1, None) :: (ns2, s2, Some e2) :: rest →
  ∃ src dst r3,
    fetched t = [src; dst]
    ∧ s1 = (swap src dst).1 ∧ s2 = (swap src dst).2 ∧ ns2 = ns1
    ∧ rest = [(ns1, (swap s1 s2).1, r3)]
    ∧ written t = [s1; s2; (swap s1 s2).1]
    ∧ v1.Selector (v1.Spec (swap s1 s2).1) = v1.Selector (v1.Spec src)
    ∧ v1.ObjectMeta (swap s1 s2).1
      = (BaseService_swap (v1.ObjectMeta s1) (v1.ObjectMeta s2)).1
    ∧ err = Some (match r3 with
                  | None => e2
                  | Some e3 => Errorf ("failed to rollback swap " +:+ Error e2
                                         +:+ ": " +:+ Error e3)
                  end).
Proof.
  unfold Swap.
  run_step. destruct x as [e|]; [by intros [= <- <- <-]|].
  run_step. destruct x as [e|ns]; [by intros [= <- <- <-]|].
  run_step. destruct x as [e|src]; [by intros [= <- <- <-]|].
  destruct (isReady src); cbn [negb]; [|by intros [= <- <- <-]].
  run_step. destruct x as [e|]; [by intros [= <- <- <-]|].
  run_step. destruct x as [e|nsd]; [by intros [= <- <- <-]|].
  run_step. destruct x as [e|dst]; [by intros [= <- <- <-]|].
  destruct (isReady dst); cbn [negb]; [|by intros [= <- <- <-]].
  destruct (swap src dst) as [src1 dst1] eqn:Hswap.
  run_step. destruct x as [e|]; [by intros [= <- <- <-]|].
  run_step. destruct x as [e|ns']; [by intros [= <- <- <-]|].
  run_step. destruct x as [e|ns2']; [by intros [= <- <- <-]|].
  destruct (String.eqb ns' ns2'); cbn [negb]; [|by intros [= <- <- <-]].
  run_step. destruct x as [e|]; [by intros [= <- <- <-]|].
  run_step. destruct x as [e|]; [|by intros [= <- <- <-]].
  destruct (swap src1 dst1) as [src2 dst2] eqn:Hswap2.
  run_step.
  destruct x as [e3|]; intros [= <- <- <-];
    cbn [fetched updates written ev_req mbind list_bind app];
    intros [= <- <- <- <- <- <-];
    [exists src, dst, (Some e3) | exists src, dst, None];
    (split_and!; [done|by rewrite Hswap|by rewrite Hswap|done|by rewrite Hswap2
                  |by rewrite Hswap2| |apply swap_ObjectMeta|done]);
    by rewrite <-(swap_swap_Selector src dst), Hswap.
Qed.

Ltac leaf :=
  let Hin := fresh "Hin" in
  intros [= <- <- <-]; cbn [fetched mbind list_bind app]; intros Hin ?;
  repeat match goal with
    | H : _ ∈ [] |- _ => by apply elem_of_nil in H
    | H : _ ∈ _ :: _ |- _ => apply elem_of_cons in H as [->|H]
    end;
  try congruence;
  try (split_and!; [done|by repeat constructor|done]).

(** C2: when a fetched balancer service is not ready, [Swap] returns
    [ErrLoadBalancerNotReady] and its trace holds no write: nothing is
    updated or created in the cluster. *)
Theorem Swap_not_ready w appSrc appDst err w' t svc :
  run handle (Swap appSrc appDst) w = (err, w', t) →
  svc ∈ fetched t → isReady svc = false →
  err = Some ErrLoadBalancerNotReady
  ∧ Forall (λ e, is_write e = false) t
  ∧ written t = [].
Proof.
  unfold Swap.
  run_step. destruct x as [e|]; [leaf|].
  run_step. destruct x as [e|ns]; [leaf|].
  run_step. destruct x as [e|src]; [leaf|].
  destruct (isReady src) eqn:Hsrc; cbn [negb]; [|leaf].
  run_step. destruct x as [e|]; [leaf|].
  run_step. destruct x as [e|nsd]; [leaf|].
  run_step. destruct x as [e|dst]; [leaf|].
  destruct (isReady dst) eqn:Hdst; cbn [negb]; [|leaf].
  destruct (swap src dst) as [src1 dst1].
  run_step. destruct x as [e|]; [leaf|].
  run_step. destruct x as [e|ns']; [leaf|].
  run_step. destruct x as [e|ns2']; [leaf|].
  destruct (String.eqb ns' ns2'); cbn [negb]; [|leaf].
  run_step. destruct x as [e|]; [leaf|].
  run_step. destruct x as [e|]; [|leaf].
  destruct (swap src1 dst1) as [src2 dst2].
  run_step. destruct x as [e3|]; leaf.
Qed.
End Protocol.

(** ** The sync engine *)

Section Sync.
Context `{Externals} {W : Type}.
Variable handle : ∀ r : Request, W → Response r * W.

Ltac unfold_prog :=
  cbn [run bind mbind mret Prog_bind Prog_ret call getLBService].

Ltac run_step :=
  unfold_prog;
  match goal with
  | |- context [handle ?r ?w] =>
      let x := fresh "x" in let w1 := fresh "w" in
      destruct (handle r w) as [x w1]; cbn [Response] in x
  end.

Lemma resolve_set_NodePort existing (p : v1.ServicePort) n :
  v1.set_NodePort (resolve existing p) n = v1.set_NodePort p n.
Proof. unfold resolve. by destruct (existing !! _). Qed.

(** The resolver changes nothing in the backend service but the node
    ports of its port entries. *)
Lemma portsForService_baseSvc_frame svc app opts (web : v1.Service) :
  ∃ ports',
    (portsForService svc app opts (Some web)).2 = Some (v1.set_Ports web ports')
    ∧ (λ p, v1.set_NodePort p 0) <$> ports'
      = (λ p, v1.set_NodePort p 0) <$> v1.Ports (v1.Spec web).
Proof.
  destruct (portsForService_baseSvc svc app opts (Some web))
    as (ports' & Heq & Hlen & _ & Hidx).
  exists ports'. split; [done|].
  apply list_eq. intros i. rewrite !list_lookup_fmap.
  cbn [baseSvcPorts] in Hlen, Hidx.
  destruct (v1.Ports (v1.Spec web) !! i) as [b|] eqn:Hb.
  - destruct (Hidx i b Hb) as (b' & -> & Hcases). simpl. f_equal.
    destruct Hcases as [->|(_ & _ & [->| ->])]; [done|done|].
    by rewrite resolve_set_NodePort.
  - apply lookup_ge_None in Hb. rewrite lookup_ge_None_2 by lia. done.
Qed.

(** The rest of [syncLB], from the test for a swapped service on. *)
Ltac sync_tail on_ports leaf :=
  destruct (isSwapped _).2 eqn:?; [leaf|];
  destruct (match _ with Some o => inr o | None => OptsFromAnnotations _ end)
    as [?|?]; [leaf|];
  run_step;
  match goal with x : (option v1.Service * option error)%type |- _ =>
    let web := fresh "web" in let err := fresh "err" in
    destruct x as [[web|] [err|]]
  end;
  cbn [fst snd];
  try (match goal with |- context [isErrNoService ?e] =>
         destruct (isErrNoService e) end);
  try (match goal with |- context [orb ?b _] => destruct b end);
  cbn [orb negb];
  try (leaf; fail);
  (match goal with |- context [fillLabelsAndAnnotations ?a ?b ?c ?d ?e] =>
     destruct (fillLabelsAndAnnotations a b c d e) as [?|?] end; [leaf|]);
  on_ports;
  match goal with |- context [portsForService ?a ?b ?c ?d] =>
    destruct (portsForService a b c d) as [? ?] end;
  (run_step; match goal with x : option error |- _ => destruct x as [?|] end; [leaf|]);
  run_step;
  match goal with x : option error |- _ =>
    let e := fresh "e" in
    destruct x as [e|]; [destruct (IsNotFound e); [run_step|]|] end;
  leaf.

Ltac noop_leaf :=
  let Hin := fresh "Hin" in
  unfold_prog; intros [= <- <- <-]; cbn [fetched mbind list_bind app]; intros Hin ?;
  repeat match goal with
    | H : _ ∈ [] |- _ => by apply elem_of_nil in H
    | H : _ ∈ _ :: _ |- _ => apply elem_of_cons in H as [->|H]
    end;
  try congruence;
  try (split_and!; [done|by repeat constructor|done]).

(** C6: when the balancer service [syncLB] fetched is swapped, the call
    returns no error, leaves the service as it was fetched and its trace
    holds no write. *)
Theorem syncLB_swapped s appName opts isUpdate w out w' t lb :
  run handle (syncLB s appName opts isUpdate) w = (out, w', t) →
  lb ∈ fetched t →
  (isSwapped (v1.ObjectMeta lb)).2 = true →
  out = (None, {| mem_lb := Some lb; mem_web := None |})
  ∧ Forall (λ e, is_write e = false) t
  ∧ written t = [].
Proof.
  unfold syncLB.
  run_step. destruct x as [e|app]; [noop_leaf|].
  run_step. destruct x as [e|].
  { unfold_prog. destruct (IsNotFound e); cbn [negb]; [|noop_leaf].
    sync_tail idtac noop_leaf. }
  run_step. destruct x as [e|ns].
  { unfold_prog. destruct (IsNotFound e); cbn [negb]; [|noop_leaf].
    sync_tail idtac noop_leaf. }
  run_step. destruct x as [e|lb'].
  { unfold_prog. destruct (IsNotFound e); cbn [negb]; [|noop_leaf].
    sync_tail idtac noop_leaf. }
  sync_tail idtac noop_leaf.
Qed.

Lemma portsForService_no_baseSvc svc app opts :
  (portsForService svc app opts None).2 = None.
Proof.
  unfold portsForService, portsForService_in.
  destruct (portsForService_setup _ _ _ _) as [existing [mem wanted]].
  by destruct (wantedPorts_loop _ _ _).
Qed.

Ltac decide_on d := first [is_var d; destruct d | destruct d eqn:?].

(** One step of a run: the next answer of the handler, or else the
    scrutinee of the next case distinction, innermost first. *)
Ltac walk_step :=
  unfold_prog;
  first
    [ match goal with
      | |- context [handle ?r ?w] =>
          let x := fresh "x" in let w1 := fresh "w" in
          destruct (handle r w) as [x w1]; cbn [Response] in x
      end
    | match goal with
      | |- context [run handle (bind (match ?d with _ => _ end) _) _] => decide_on d
      end
    | match goal with
      | |- context [run handle (match (match ?d with _ => _ end) with _ => _ end) _] =>
          decide_on d
      end
    | match goal with
      | |- context [run handle (match ?d with _ => _ end) _] => decide_on d
      end ].

Ltac walk := repeat walk_step; unfold_prog.

Ltac split_elem :=
  repeat match goal with
    | H : _ ∈ [] |- _ => by apply elem_of_nil in H
    | H : _ ∈ _ :: _ |- _ => apply elem_of_cons in H as [->|H]
    end.

Lemma fillLabelsAndAnnotations_Ports (s : LBService) svc appName web o svc' :
  fillLabelsAndAnnotations s svc appName web o = inr svc' →
  v1.Ports (v1.Spec svc') = v1.Ports (v1.Spec svc).
Proof.
  unfold fillLabelsAndAnnotations, fillLabelsAndAnnotations_in.
  destruct (ToAnnotations o); [done|]. by intros [= <-].
Qed.

Lemma fillLabelsAndAnnotations_error (s : LBService) svc appName web o err :
  fillLabelsAndAnnotations s svc appName web o = inl err → ToAnnotations o = inl err.
Proof.
  unfold fillLabelsAndAnnotations, fillLabelsAndAnnotations_in.
  destruct (ToAnnotations o); [|done]. by intros [= ->].
Qed.

(** What a sync that resolves the ports leaves in the backend service. *)
Lemma syncLB_resolved_backend (s : LBService) appName app (lb0 web : v1.Service) o lb1
    ports web2 :
  fillLabelsAndAnnotations s (v1.set_Selector lb0 (v1.Selector (v1.Spec web)))
    appName (Some web) o = inr lb1 →
  portsForService lb1 app o (Some web) = (ports, web2) →
  ∃ web',
    web2 = Some web'
    ∧ web' = v1.set_Ports web (v1.Ports (v1.Spec web'))
    ∧ (λ p, v1.set_NodePort p 0) <$> v1.Ports (v1.Spec web')
      = (λ p, v1.set_NodePort p 0) <$> v1.Ports (v1.Spec web)
    ∧ (∀ e, ToAnnotations o = inl e → web' = web)
    ∧ (exposesAll o (Some web) = false → web' = web)
    ∧ (exposesAll o (Some web) = true →
       ∀ i b, v1.Ports (v1.Spec web) !! i = Some b →
         v1.Ports (v1.Spec web') !! i = Some
           (if bool_decide (v1.Port b = int32 (additionalPort o)) then b
            else if bool_decide
                      (v1.Port b ∈ v1.Port <$> drop (S i) (v1.Ports (v1.Spec web)))
                 then v1.set_NodePort b 0
                 else resolve (existingPorts (v1.Ports (v1.Spec lb0)))
                        (v1.set_NodePort b 0))).
Proof.
  intros Hfill Hports.
  assert (v1.Ports (v1.Spec lb1) = v1.Ports (v1.Spec lb0)) as Hsame.
  { by rewrite (fillLabelsAndAnnotations_Ports _ _ _ _ _ _ Hfill). }
  destruct (portsForService_baseSvc_frame lb1 app o web) as (ports' & Hweb & Hframe).
  rewrite Hports in Hweb. cbn [snd] in Hweb. subst web2.
  exists (v1.set_Ports web ports'). split_and!; [done|done|done|..].
  - intros e He. unfold fillLabelsAndAnnotations, fillLabelsAndAnnotations_in in Hfill.
    by rewrite He in Hfill.
  - intros Hno.
    destruct (portsForService_baseSvc lb1 app o (Some web))
      as (ports2 & Hweb & _ & Hkept & _).
    rewrite Hports in Hweb. cbn [snd fmap option_fmap option_map] in Hweb.
    rewrite (Hkept Hno) in Hweb. cbn [baseSvcPorts] in Hweb.
    rewrite set_Ports_id in Hweb. by injection Hweb as ->.
  - intros Hall i b Hb.
    destruct (portsForService_baseSvc_exposed lb1 app o web Hall) as (ports2 & Hweb & Hidx).
    rewrite Hports in Hweb. cbn [snd] in Hweb. injection Hweb as Hweb. subst ports2.
    rewrite <-Hsame. by apply Hidx.
Qed.


Ltac note_backend :=
  repeat match goal with
    | Hf : fillLabelsAndAnnotations _ _ _ (Some ?web) ?o = inr ?lb1,
      Hp : portsForService ?lb1 ?app ?o (Some ?web) = (_, ?web2) |- _ =>
        let web' := fresh "web'" in
        destruct (syncLB_resolved_backend _ _ app _ web o lb1 _ web2 Hf Hp)
          as (web' & ? & ? & ? & ? & ? & ?);
        clear Hp; simplify_eq
    | Hp : portsForService ?lb1 ?app ?o None = (_, ?web2) |- _ =>
        let Hn := fresh "Hn" in
        pose proof (portsForService_no_baseSvc lb1 app o) as Hn;
        rewrite Hp in Hn; cbn [snd] in Hn; clear Hp; simplify_eq
    end.

Ltac resolved_conjuncts :=
  cbn [written backends_seen backend_answers apps fetched ev_req mbind list_bind
       Datatypes.app fmap list_fmap fst snd mem_lb mem_web];
  split_and!;
  [ let Hm := fresh "Hm" in
    intros ? Hm;
    first
      [ discriminate Hm
      | injection Hm as <-; eexists; split_and!;
        [ reflexivity
        | first [eassumption | by rewrite set_Ports_id]
        | first [eassumption | reflexivity] ] ]
  | let Hin := fresh "Hin" in intros ? Hin; split_elem; done
  | let Hb := fresh "Hb" in
    let Htol := fresh "Htol" in
    intros ? ? Hb Htol;
    first
      [ discriminate Hb
      | injection Hb as <- <-;
        first
          [ exfalso;
            match goal with
            | Hx : orb _ (negb (isErrNoService ?e)) = true |- _ =>
                let Hy := fresh "Hy" in
                destruct (Htol e eq_refl) as [-> Hy]; rewrite Hy in Hx; discriminate Hx
            end
          | do 4 eexists;
            split_and!;
            [ reflexivity
            | first [left; reflexivity | right; split; reflexivity]
            | first [left; reflexivity | right; split; [reflexivity|eassumption]]
            | reflexivity
            | first [eassumption | reflexivity]
            | first [eassumption | reflexivity]
            | let Ha := fresh "Ha" in
              intros ? Ha;
              first
                [ eassumption
                | match goal with
                  | Hf : fillLabelsAndAnnotations _ _ _ _ _ = inl _ |- _ =>
                      apply fillLabelsAndAnnotations_error in Hf; congruence
                  end ] ] ] ] ].

Ltac resolved_leaf :=
  intros [= <- <- <-];
  repeat match goal with o : option v1.Service |- _ => destruct o end;
  note_backend;
  resolved_conjuncts.

(** C9, as the code has it: [syncLB] never writes the backend service to
    the cluster (every write is of the balancer service), and what it
    leaves in the backend service it fetched differs from what was
    fetched at most in the node ports of its port entries.  Those it
    does write: when the backend service was found (a lookup error, if
    any, being tolerated), the options in force serialise and all ports
    are exposed, a backend port entry whose number is not the exposed
    port is left with the node port of the balancer service's existing
    port of its number, if there is one and no later backend entry has
    the number, and with no node port otherwise.  An entry whose number
    is the exposed port is left as fetched, and so is the whole service
    when not all ports are exposed or the options do not serialise. *)
Theorem syncLB_backend s appName opts isUpdate w out w' t :
  run handle (syncLB s appName opts isUpdate) w = (out, w', t) →
  (∀ web', mem_web out.2 = Some web' →
     ∃ web, backends_seen t = [web]
            ∧ web' = v1.set_Ports web (v1.Ports (v1.Spec web'))
            ∧ (λ p, v1.set_NodePort p 0) <$> v1.Ports (v1.Spec web')
              = (λ p, v1.set_NodePort p 0) <$> v1.Ports (v1.Spec web))
  ∧ (∀ svc, svc ∈ written t → mem_lb out.2 = Some svc)
  ∧ (∀ web err,
       backend_answers t = [(Some web, err)] →
       (∀ e, err = Some e → isUpdate = false ∧ isErrNoService e = true) →
       ∃ app lb0 o web',
         apps t = [app]
         ∧ (fetched t = [lb0] ∨ (fetched t = [] ∧ lb0 = newLBService s appName app))
         ∧ (opts = Some o ∨ (opts = None ∧ OptsFromAnnotations (v1.ObjectMeta lb0) = inr o))
         ∧ mem_web out.2 = Some web'
         ∧ (∀ e, ToAnnotations o = inl e → web' = web)
         ∧ (exposesAll o (Some web) = false → web' = web)
         ∧ (∀ a, ToAnnotations o = inr a → exposesAll o (Some web) = true →
            ∀ i b, v1.Ports (v1.Spec web) !! i = Some b →
              v1.Ports (v1.Spec web') !! i = Some
                (if bool_decide (v1.Port b = int32 (additionalPort o)) then b
                 else if bool_decide
                           (v1.Port b ∈ v1.Port <$> drop (S i) (v1.Ports (v1.Spec web)))
                      then v1.set_NodePort b 0
                      else resolve (existingPorts (v1.Ports (v1.Spec lb0)))
                             (v1.set_NodePort b 0)))).
Proof.
  unfold syncLB. walk.
  all: resolved_leaf.
Qed.
End Sync.

(** ** The protocol and the sync engine on the sample deployment *)

Lemma Swap_rollback_witness :
  let c := Sample.cluster [Sample.blue; Sample.green] [] [None; Some Sample.conflict] in
  let out := run Sample.handle (Swap "blue" "green") c in
  let s1 := (swap Sample.blue Sample.green).1 in
  let s2 := (swap Sample.blue Sample.green).2 in
  updates out.2 = [ ("default", s1, None); ("default", s2, Some Sample.conflict);
                    ("default", (swap s1 s2).1, None) ]
  ∧ out.1.1 = Some Sample.conflict
  ∧ v1.Selector (v1.Spec (swap s1 s2).1) = v1.Selector (v1.Spec Sample.blue).
Proof.
  intros c out s1 s2.
  assert (updates out.2 = [ ("default", s1, None); ("default", s2, Some Sample.conflict);
                            ("default", (swap s1 s2).1, None) ]) as Hupd.
  { vm_compute. reflexivity. }
  split; [exact Hupd|].
  destruct (Swap_rollback Sample.handle c "blue" "green" out.1.1 out.1.2 out.2
              "default" s1 "default" s2 Sample.conflict _ (triple_eta out) Hupd)
    as (src & dst & r3 & Hfetched & Hs1 & Hs2 & _ & Hrest & _ & Hsel & _ & Herr).
  injection Hrest as <-.
  split; [exact Herr|].
  assert (src = Sample.blue) as <-; [|exact Hsel].
  assert (fetched out.2 = [Sample.blue; Sample.green]) as Hf by (vm_compute; reflexivity).
  rewrite Hf in Hfetched. by injection Hfetched.
Defined.

Lemma Swap_not_ready_witness :
  let c := Sample.cluster [Sample.blue; Sample.pending] [] [] in
  let out := run Sample.handle (Swap "blue" "green") c in
  Sample.pending ∈ fetched out.2
  ∧ isReady Sample.pending = false
  ∧ out.1.1 = Some ErrLoadBalancerNotReady
  ∧ written out.2 = []
  ∧ out.1.2 = c.
Proof.
  intros c out.
  assert (Sample.pending ∈ fetched out.2) as Hin.
  { vm_compute. right. left. }
  assert (isReady Sample.pending = false) as Hready by reflexivity.
  destruct (Swap_not_ready Sample.handle c "blue" "green" out.1.1 out.1.2 out.2
              Sample.pending (triple_eta out) Hin Hready) as (Herr & _ & Hw).
  split_and!; [exact Hin|exact Hready|exact Herr|exact Hw|].
  vm_compute. reflexivity.
Defined.

Lemma syncLB_swapped_witness :
  let c := Sample.cluster [Sample.swapped] [("blue", Sample.web)] [] in
  let out := run Sample.handle (Update (Sample.service ∅ ∅) "blue") c in
  Sample.swapped ∈ fetched out.2
  ∧ (isSwapped (v1.ObjectMeta Sample.swapped)).2 = true
  ∧ out.1.1 = (None, {| mem_lb := Some Sample.swapped; mem_web := None |})
  ∧ written out.2 = [].
Proof.
  intros c out.
  assert (Sample.swapped ∈ fetched out.2) as Hin.
  { vm_compute. left. }
  assert ((isSwapped (v1.ObjectMeta Sample.swapped)).2 = true) as Hsw by (vm_compute; reflexivity).
  destruct (syncLB_swapped Sample.handle (Sample.service ∅ ∅) "blue" None true c
              out.1.1 out.1.2 out.2 Sample.swapped (triple_eta out) Hin Hsw)
    as (Hout & _ & Hw).
  by split_and!.
Defined.

Lemma syncLB_backend_witness :
  let c := Sample.cluster [Sample.blue] [("blue", Sample.web)] [] in
  let out := run Sample.handle (Create (Sample.service ∅ ∅) "blue" Sample.allPorts) c in
  ∃ web', mem_web out.1.1.2 = Some web'
          ∧ web' = v1.set_Ports Sample.web (v1.Ports (v1.Spec web'))
          ∧ v1.Ports (v1.Spec web') !! 0 = Some (Sample.port "http" 80 8000 30080)
          ∧ v1.Ports (v1.Spec web') !! 1 = Some (Sample.port "alt" 8080 8001 31081)
          ∧ v1.Ports (v1.Spec web') !! 2 = Some (Sample.port "https" 443 8443 0).
Proof.
  intros c out.
  destruct (syncLB_backend Sample.handle (Sample.service ∅ ∅) "blue" (Some Sample.allPorts)
              false c out.1.1 out.1.2 out.2 (triple_eta out)) as (Hweb & _ & Hres).
  destruct (Hres Sample.web None)
    as (app & lb0 & o & web' & _ & Hfetched & Hopts & Hmem & _ & _ & Hexp).
  { vm_compute. reflexivity. }
  { intros e. discriminate. }
  assert (fetched out.2 = [Sample.blue]) as Hf by (vm_compute; reflexivity).
  rewrite Hf in Hfetched.
  destruct Hfetched as [[= <-]|[Hnil _]]; [|discriminate Hnil].
  destruct Hopts as [[= <-]|[Hnone _]]; [|discriminate Hnone].
  exists web'. split; [exact Hmem|].
  destruct (Hweb web' Hmem) as (web & Hseen & Hshape & _).
  assert (backends_seen out.2 = [Sample.web]) as Hs by (vm_compute; reflexivity).
  rewrite Hs in Hseen. injection Hseen as <-.
  split; [exact Hshape|].
  assert (exposesAll Sample.allPorts (Some Sample.web) = true) as Hall
    by (vm_compute; reflexivity).
  split_and!.
  - rewrite (Hexp _ eq_refl Hall 0 (Sample.port "http" 80 8000 31080) eq_refl).
    vm_compute. reflexivity.
  - rewrite (Hexp _ eq_refl Hall 1 (Sample.port "alt" 8080 8001 31081) eq_refl).
    vm_compute. reflexivity.
  - rewrite (Hexp _ eq_refl Hall 2 (Sample.port "https" 443 8443 31443) eq_refl).
    vm_compute. reflexivity.
Defined.

(** C9, as the specification words it, fails: a sync that exposes all
    ports clears the node ports in the backend service it fetched. *)
Lemma syncLB_writes_backend_nodePorts :
  let c := Sample.cluster [Sample.blue] [("blue", Sample.web)] [] in
  let out := run Sample.handle (Create (Sample.service ∅ ∅) "blue" Sample.allPorts) c in
  backends_seen out.2 = [Sample.web]
  ∧ out.1.1.1 = None
  ∧ ∃ web', mem_web out.1.1.2 = Some web'
            ∧ web' ≠ Sample.web
            ∧ v1.NodePort <$> v1.Ports (v1.Spec Sample.web) = [31080; 31081; 31443]%Z
            ∧ v1.NodePort <$> v1.Ports (v1.Spec web') = [30080; 31081; 0]%Z.
Proof.
  intros c out. split; [by vm_compute|]. split; [by vm_compute|].
  eexists. split; [vm_compute; reflexivity|].
  split; [|split; by vm_compute].
  intros Heq. apply (f_equal (λ s, v1.NodePort <$> v1.Ports (v1.Spec s))) in Heq.
  vm_compute in Heq. discriminate.
Qed.

(** * Further properties *)

(** ** Names and addresses *)

Lemma append_length (s1 s2 : string) :
  String.length (s1 +:+ s2) = String.length s1 + String.length s2.
Proof. induction s1 as [|c s1 IH]; simpl; [done|]. by rewrite IH. Qed.

Lemma append_cancel_r (s1 s2 suffix : string) :
  s1 +:+ suffix = s2 +:+ suffix → s1 = s2.
Proof.
  revert s2. induction s1 as [|c s1 IH]; intros [|c' s2] Heq.
  - done.
  - apply (f_equal String.length) in Heq.
    rewrite !append_length in Heq. simpl in Heq. lia.
  - apply (f_equal String.length) in Heq.
    rewrite !append_length in Heq. simpl in Heq. lia.
  - injection Heq as -> Heq. f_equal. by apply IH.
Qed.

(** X1: the name of the balancer service determines the application:
    two applications never share a service name. *)
Theorem serviceName_inj (app1 app2 : string) :
  serviceName app1 = serviceName app2 → app1 = app2.
Proof. apply append_cancel_r. Qed.

Lemma serviceName_inj_witness :
  serviceName "blue" = serviceName "blue" ∧ "blue" = "blue".
Proof.
  split; [reflexivity|].
  apply (serviceName_inj "blue" "blue"). reflexivity.
Defined.

Section Lookup.
Context {W : Type}.
Variable handle : ∀ r : Request, W → Response r * W.

Ltac unfold_prog :=
  cbn [run bind mbind mret Prog_bind Prog_ret call getLBService].

Ltac run_step :=
  unfold_prog;
  match goal with
  | |- context [handle ?r ?w] =>
      let x := fresh "x" in let w1 := fresh "w" in
      destruct (handle r w) as [x w1]; cbn [Response] in x
  end.

Lemma append_nonempty (s1 s2 : string) : s1 ≠ "" → s1 +:+ s2 ≠ "".
Proof. by destruct s1. Qed.

(** X3: for a balancer service that is ready, [Get] answers an address that
    is not empty. *)
Theorem Get_ready_address w appName service w1 t :
  run handle (getLBService appName) w = (inr service, w1, t) →
  isReady service = true →
  ∃ addr : string,
    run handle (Get appName) w = (inr {[ "address" := addr ]}, w1, t)
    ∧ addr ≠ "".
Proof.
  intros Hrun Hready. unfold Get. rewrite run_bind, Hrun. simpl.
  eexists. rewrite app_nil_r. split; [done|].
  unfold isReady in Hready.
  destruct (v1.Ingress _) as [|lb0 ?]; [done|].
  apply negb_true_iff, String.eqb_neq in Hready.
  destruct (String.eqb (v1.Hostname lb0) "") eqn:Hh; simpl.
  - destruct (v1.Ports _); [done|]. by apply append_nonempty.
  - by apply String.eqb_neq.
Qed.

(** X2: [getLBService] writes nothing; the only service it asks for is the one
    named after the application, in the namespace it was answered for the
    application; and a service it returns is the one the cluster answered. *)
Theorem getLBService_lookup w appName r w1 t :
  run handle (getLBService appName) w = (r, w1, t) →
  written t = []
  ∧ (∀ svc, r = inr svc → fetched t = [svc])
  ∧ (∀ ns name x, Ev (ServicesGet ns name) x ∈ t →
       name = serviceName appName
       ∧ Ev (GetAppNamespace appName) (inr ns) ∈ t).
Proof.
  unfold getLBService.
  run_step. destruct x as [err|].
  { intros [= <- <- <-]. split_and!; [done|done|].
    intros ns name x [Hin|Hin%elem_of_nil]%elem_of_cons; [|done].
    by injection Hin. }
  run_step. destruct x as [err|ns].
  { intros [= <- <- <-]. split_and!; [done|done|].
    intros ns name x [Hin|[Hin|Hin%elem_of_nil]%elem_of_cons]%elem_of_cons;
      [by injection Hin|by injection Hin|done]. }
  run_step.
  intros [= <- <- <-]. split_and!.
  - done.
  - by intros svc ->.
  - intros ns' name x' Hin.
    apply elem_of_cons in Hin as [Hin|Hin]; [by injection Hin|].
    apply elem_of_cons in Hin as [Hin|Hin]; [by injection Hin|].
    apply list_elem_of_singleton in Hin.
    injection Hin as -> -> _.
    split; [done|]. right. left.
Qed.
End Lookup.

(** ** Merging, again *)

Section MergeAlgebra.
Context `{Externals}.
Implicit Types (entries : list (gmap string string)) (m : gmap string string).

Lemma firstWriter_app k entries1 entries2 :
  firstWriter k (entries1 ++ entries2) =
    match firstWriter k entries1 with
    | Some v => Some v
    | None => firstWriter k entries2
    end.
Proof.
  induction entries1 as [|m entries1 IH]; simpl; [done|].
  by destruct (m !! k).
Qed.

Lemma firstWriter_is_Some k entries :
  is_Some (firstWriter k entries) ↔ ∃ m, m ∈ entries ∧ is_Some (m !! k).
Proof.
  induction entries as [|m entries IH]; simpl.
  { split; [by intros [? [=]]|]. by intros (? & ?%elem_of_nil & _). }
  destruct (m !! k) as [v|] eqn:Hm.
  - split; [|by eexists]. intros _. exists m. split; [left|by eexists].
  - rewrite IH. split.
    + intros (m' & ? & ?). exists m'. split; [by right|done].
    + intros (m' & [->|?]%elem_of_cons & Hs).
      * rewrite Hm in Hs. by destruct Hs.
      * by exists m'.
Qed.

(** X5: merging a concatenation of sources is the union of the two merges in
    which the first wins. *)
Theorem mergeMaps_app entries1 entries2 :
  mergeMaps (entries1 ++ entries2) = mergeMaps entries1 ∪ mergeMaps entries2.
Proof.
  apply map_eq. intros k.
  rewrite lookup_union, !mergeMaps_lookup, firstWriter_app.
  by destruct (firstWriter k entries1), (firstWriter k entries2).
Qed.

(** X6: a merge has a key exactly when a source has it, every value comes from
    a source, and the first source is kept whole. *)
Theorem mergeMaps_keys entries :
  (∀ k, is_Some (mergeMaps entries !! k) ↔ ∃ m, m ∈ entries ∧ is_Some (m !! k))
  ∧ (∀ m rest, entries = m :: rest → m ⊆ mergeMaps entries)
  ∧ (∀ k v, mergeMaps entries !! k = Some v → ∃ m, m ∈ entries ∧ m !! k = Some v).
Proof.
  split_and!.
  - intros k. rewrite mergeMaps_lookup. apply firstWriter_is_Some.
  - intros m rest ->. apply map_subseteq_spec. intros k v Hk.
    rewrite mergeMaps_lookup. simpl. by rewrite Hk.
  - intros k v. rewrite mergeMaps_lookup.
    induction entries as [|m entries IH]; simpl; [done|].
    destruct (m !! k) as [v'|] eqn:Hm.
    + intros [= ->]. exists m. split; [left|done].
    + intros (m' & ? & ?)%IH. exists m'. split; [by right|done].
Qed.

(** X7: when the options serialise, the annotations put on the service are,
    key by key, the value of the earliest of: the router-wide annotations,
    the serialised options, the annotations of the backend service (when
    there is one); in every visiting order of [OptsAsLabels]. *)
Theorem fillLabelsAndAnnotations_annotations (s : LBService) (svc : v1.Service)
    (appName : string) (webService : option v1.Service) (opts : router.Opts)
    (order : list (string * string)) (optsAnnotations : gmap string string) :
  ToAnnotations opts = inr optsAnnotations →
  ∃ svc',
    fillLabelsAndAnnotations_in order s svc appName webService opts = inr svc'
    ∧ ∀ k,
        metav1.Annotations (v1.ObjectMeta svc') !! k =
          match Annotations (base s) !! k with
          | Some v => Some v
          | None =>
          match optsAnnotations !! k with
          | Some v => Some v
          | None =>
          match webService with
          | Some web => metav1.Annotations (v1.ObjectMeta web) !! k
          | None => None
          end end end.
Proof.
  intros Hann. unfold fillLabelsAndAnnotations_in. rewrite Hann.
  eexists. split; [done|]. intros k.
  cbn [v1.set_ObjectMeta v1.ObjectMeta metav1.Annotations].
  rewrite mergeMaps_lookup.
  destruct webService as [web|]; cbn [firstWriter app];
    repeat (match goal with |- context [match ?m !! k with _ => _ end] =>
              destruct (m !! k) end; try done).
Qed.

(** X8: with pairwise distinct reserved label names, a reserved label that
    neither the pool overrides, nor the option-derived labels, nor the
    router-wide labels define has its reserved value on the service: the
    application name, the marker [true], the pool. *)
Theorem fillLabelsAndAnnotations_identity (s : LBService) (svc : v1.Service)
    (appName : string) (webService : option v1.Service) (opts : router.Opts)
    (order : list (string * string)) svc' :
  appLabel ≠ managedServiceLabel → appLabel ≠ appPoolLabel →
  managedServiceLabel ≠ appPoolLabel →
  fillLabelsAndAnnotations_in order s svc appName webService opts = inr svc' →
  ∀ k v,
    (k, v) ∈ [(appLabel, appName); (managedServiceLabel, "true");
              (appPoolLabel, router.Pool opts)] →
    default ∅ (PoolLabels s !! router.Pool opts) !! k = None →
    optsLabels_loop opts order !! k = None →
    Labels (base s) !! k = None →
    metav1.Labels (v1.ObjectMeta svc') !! k = Some v.
Proof.
  intros H1 H2 H3. unfold fillLabelsAndAnnotations_in.
  destruct (ToAnnotations opts) as [err|optsAnnotations]; [done|].
  intros [= <-] k v Hkv Hpool Hopts Hstatic.
  cbn [v1.set_ObjectMeta v1.ObjectMeta metav1.Labels].
  rewrite mergeMaps_lookup. unfold labelSources.
  assert (reservedLabels appName opts !! k = Some v) as Hres.
  { unfold reservedLabels.
    apply elem_of_cons in Hkv as [[= -> ->]|Hkv]; [by rewrite lookup_insert_eq|].
    apply elem_of_cons in Hkv as [[= -> ->]|Hkv].
    { rewrite lookup_insert_ne by done. by rewrite lookup_insert_eq. }
    apply list_elem_of_singleton in Hkv as [= -> ->].
    do 2 (rewrite lookup_insert_ne by done). by rewrite lookup_insert_eq. }
  destruct webService as [web|]; cbn [firstWriter app];
    by rewrite Hpool, Hopts, Hstatic, Hres.
Qed.
End MergeAlgebra.

(** ** Orders, resyncs and port numbers *)

Section Resync.
Context `{Externals}.
Implicit Types (existing : gmap Z v1.ServicePort) (mem : PortMem)
               (p q : v1.ServicePort) (r : PortRef).

Lemma optsLabels_loop_order (s : LBService) (opts : router.Opts)
    (order : list (string * string)) :
  order ≡ₚ map_to_list (OptsAsLabels s) →
  (∀ o1 o2 label, OptsAsLabels s !! o1 = Some label → OptsAsLabels s !! o2 = Some label →
     is_Some (router.AdditionalOpts opts !! o1) →
     is_Some (router.AdditionalOpts opts !! o2) → o1 = o2) →
  optsLabels_loop opts order = optsLabels_loop opts (map_to_list (OptsAsLabels s)).
Proof.
  intros Hp Hinj.
  assert (∀ l1 l2 : list (string * string),
    l1 ≡ₚ map_to_list (OptsAsLabels s) → l2 ≡ₚ map_to_list (OptsAsLabels s) →
    ∀ label v, optsLabels_loop opts l1 !! label = Some v →
               optsLabels_loop opts l2 !! label = Some v) as Hdir.
  { intros l1 l2 H1 H2 label v Hl.
    apply optsLabels_loop_supplied in Hl as (o1 & Hin1 & Hv1).
    destruct (optsLabels_loop_covers opts l2 o1 label v) as [v2 Hl2]; [|done|].
    { by rewrite H2, <-H1. }
    rewrite Hl2. f_equal.
    apply optsLabels_loop_supplied in Hl2 as (o2 & Hin2 & Hv2).
    rewrite H1 in Hin1. rewrite H2 in Hin2.
    apply elem_of_map_to_list in Hin1, Hin2.
    assert (o1 = o2) as -> by (eapply Hinj; eauto).
    congruence. }
  apply map_eq. intros label.
  destruct (optsLabels_loop opts order !! label) as [v|] eqn:H1.
  - symmetry. by eapply Hdir.
  - destruct (optsLabels_loop opts (map_to_list _) !! label) as [v|] eqn:H2; [|done].
    eapply Hdir in H2; [|done..]. congruence.
Qed.

(** X9: when no two options the caller supplied are mapped to the same label,
    labels and annotations do not depend on the order in which the range
    visits [OptsAsLabels]. *)
Theorem fillLabelsAndAnnotations_any_order (s : LBService) (svc : v1.Service)
    (appName : string) (webService : option v1.Service) (opts : router.Opts)
    (order : list (string * string)) :
  order ≡ₚ map_to_list (OptsAsLabels s) →
  (∀ o1 o2 label, OptsAsLabels s !! o1 = Some label → OptsAsLabels s !! o2 = Some label →
     is_Some (router.AdditionalOpts opts !! o1) →
     is_Some (router.AdditionalOpts opts !! o2) → o1 = o2) →
  fillLabelsAndAnnotations_in order s svc appName webService opts
  = fillLabelsAndAnnotations s svc appName webService opts.
Proof.
  intros Hp Hinj. unfold fillLabelsAndAnnotations, fillLabelsAndAnnotations_in.
  by rewrite (optsLabels_loop_order s opts order).
Qed.

Lemma set_NodePort_resolve existing p :
  v1.set_NodePort p (v1.NodePort (resolve existing p)) = resolve existing p.
Proof.
  unfold resolve. destruct (existing !! _); [done|]. apply set_NodePort_id.
Qed.

Lemma portsForService_setup_svc svc svc' app opts baseSvc :
  (portsForService_setup svc' app opts baseSvc).2
  = (portsForService_setup svc app opts baseSvc).2.
Proof. done. Qed.

(** X11: resolving the ports again on a service that carries the ports just
    resolved, with the same options and backend service, yields the same
    slice: no port is added, dropped or given another node port. *)
Theorem portsForService_idempotent svc app opts baseSvc :
  let ports := (portsForService svc app opts baseSvc).1 in
  (portsForService (v1.set_Ports svc ports) app opts baseSvc).1 = ports.
Proof.
  intros ports.
  destruct (portsForService_setup svc app opts baseSvc)
    as [existing [mem wanted]] eqn:Hsetup.
  destruct (portsForService_setup (v1.set_Ports svc ports) app opts baseSvc)
    as [existing' [mem' wanted']] eqn:Hsetup'.
  pose proof (portsForService_setup_svc svc (v1.set_Ports svc ports) app opts baseSvc) as Heq.
  rewrite Hsetup, Hsetup' in Heq. injection Heq as -> ->.
  assert (existing' = existingPorts ports) as ->.
  { unfold portsForService_setup in Hsetup'. by injection Hsetup' as <- _. }
  destruct (portsForService_in_spec map_to_list _ _ _ _ _ _ _ (λ _, reflexivity _) Hsetup)
    as [Hports Hnd].
  destruct (portsForService_in_spec map_to_list _ _ _ _ _ _ _ (λ _, reflexivity _) Hsetup')
    as [Hports' _].
  unfold portsForService in *.
  assert (ports = sortSlice (map_to_list wanted ≫= emit existing mem)) as Hp.
  { subst ports. by rewrite Hports. }
  rewrite Hports'. cbn [fst]. rewrite Hp at 2. f_equal.
  apply Forall_bind_ext, Forall_forall. intros [k r] Hin. unfold emit. cbn [snd].
  destruct (deref mem r) as [p|] eqn:Hd; [|done]. f_equal.
  set (q := resolve existing p).
  assert (q ∈ ports) as Hq.
  { rewrite Hp, sortSlice_Permutation. apply elem_of_emit. by exists k, r, p. }
  assert (existingPorts ports !! v1.Port p = Some q) as Hex.
  { rewrite <-(resolve_Port existing p). apply existingPorts_lookup_unique; [|done].
    by rewrite Hp, sortSlice_Permutation. }
  unfold resolve at 1. rewrite Hex. apply set_NodePort_resolve.
Qed.

(** X12: unless all ports are exposed and there is a backend service, the
    slice holds the one entry of the exposed port and the backend service
    is left as it was. *)
Theorem portsForService_single svc app opts baseSvc :
  exposesAll opts baseSvc = false →
  portsForService svc app opts baseSvc =
    ([resolve (existingPorts (v1.Ports (v1.Spec svc)))
        (primaryPort app (additionalPort opts))], baseSvc).
Proof.
  intros Hno.
  destruct (portsForService_setup_spec svc app opts baseSvc)
    as (wanted & Hsetup & HP & HP' & HB & _).
  assert (wanted = {[int32 (additionalPort opts) := PrimaryPort]}) as ->.
  { apply map_eq. intros k. rewrite lookup_singleton. case_decide as Hk.
    - by subst k.
    - destruct (wanted !! k) as [[|i]|] eqn:Hw; [| |done].
      + by apply HP' in Hw.
      + destruct (HB k i Hw) as [? _]. congruence. }
  unfold portsForService, portsForService_in. rewrite Hsetup, Hno.
  rewrite map_to_list_singleton. cbn [wantedPorts_loop foldl deref primary].
  fold (resolve (existingPorts (v1.Ports (v1.Spec svc)))
          (primaryPort app (additionalPort opts))).
  destruct (existingPorts (v1.Ports (v1.Spec svc)) !! _) eqn:Hex;
    unfold resolve; rewrite Hex; cbn [deref store_NodePort primary basePorts Datatypes.app].
  all: f_equal; try reflexivity.
  all: destruct baseSvc as [b|]; cbn [fmap option_fmap option_map baseSvcPorts]; [|done].
  all: by rewrite set_Ports_id.
Qed.

(** X13: the port numbers of the slice are pairwise distinct; they are the
    exposed port and, when all ports are exposed, the port numbers of the
    backend service; so the slice has at least one entry and at most one
    more than the backend service has ports. *)
Theorem portsForService_numbers svc app opts baseSvc :
  let P := int32 (additionalPort opts) in
  let ports := (portsForService svc app opts baseSvc).1 in
  NoDup (v1.Port <$> ports)
  ∧ (∀ k, k ∈ v1.Port <$> ports ↔
          k = P ∨ (exposesAll opts baseSvc = true ∧ k ∈ v1.Port <$> baseSvcPorts baseSvc))
  ∧ 1 ≤ length ports ≤ 1 + length (baseSvcPorts baseSvc).
Proof.
  intros P ports.
  destruct (portsForService_entries svc app opts baseSvc) as (Hprim & Hall & Hbase).
  fold P ports in Hprim, Hall, Hbase.
  assert (NoDup (v1.Port <$> ports)) as Hnd.
  { destruct (portsForService_setup svc app opts baseSvc)
      as [existing [mem wanted]] eqn:Hsetup.
    destruct (portsForService_in_spec map_to_list _ _ _ _ _ _ _ (λ _, reflexivity _) Hsetup)
      as [Hports Hnd].
    subst ports. unfold portsForService. rewrite Hports. cbn [fst].
    by rewrite sortSlice_Permutation. }
  assert (∀ k, k ∈ v1.Port <$> ports ↔
            k = P ∨ (exposesAll opts baseSvc = true
                     ∧ k ∈ v1.Port <$> baseSvcPorts baseSvc)) as Hiff.
  { intros k. rewrite !list_elem_of_fmap. split.
    - intros (q & -> & Hq). destruct (Hall q Hq) as [->|(He & Hne & b & Hb & Hk & _)].
      + left. by rewrite resolve_Port.
      + right. split; [done|]. by exists b.
    - intros [->|(He & b & -> & Hb)].
      + eexists. split; [|exact Hprim]. by rewrite resolve_Port.
      + destruct (decide (v1.Port b = P)) as [HbP|HbP].
        * eexists. split; [|exact Hprim]. by rewrite resolve_Port.
        * destruct (Hbase b He Hb HbP) as (q & Hq & Hqb). by exists q. }
  split_and!; [done|done| |].
  - destruct ports; [by apply elem_of_nil in Hprim|simpl; lia].
  - assert (length (v1.Port <$> ports)
            ≤ length (P :: (v1.Port <$> baseSvcPorts baseSvc))) as Hlen.
    { apply submseteq_length, NoDup_submseteq; [done|].
      intros k [->|[_ ?]]%Hiff; [left|by right]. }
    simpl in Hlen. rewrite !length_fmap in Hlen. lia.
Qed.
End Resync.

(** ** The swap protocol, again *)

Section SwapMore.
Context `{Externals} {W : Type}.
Variable handle : ∀ r : Request, W → Response r * W.

Ltac unfold_prog :=
  cbn [run bind mbind mret Prog_bind Prog_ret call getLBService].

Ltac run_step :=
  unfold_prog;
  match goal with
  | |- context [handle ?r ?w] =>
      let x := fresh "x" in let w1 := fresh "w" in
      destruct (handle r w) as [x w1]; cbn [Response] in x
  end.

Lemma swap_fields src dst :
  v1.Selector (v1.Spec (swap src dst).1) = v1.Selector (v1.Spec dst)
  ∧ v1.Selector (v1.Spec (swap src dst).2) = v1.Selector (v1.Spec src)
  ∧ v1.Ports (v1.Spec (swap src dst).1) = v1.Ports (v1.Spec src)
  ∧ v1.Ports (v1.Spec (swap src dst).2) = v1.Ports (v1.Spec dst)
  ∧ v1.Type_ (v1.Spec (swap src dst).1) = v1.Type_ (v1.Spec src)
  ∧ v1.Type_ (v1.Spec (swap src dst).2) = v1.Type_ (v1.Spec dst)
  ∧ v1.Status (swap src dst).1 = v1.Status src
  ∧ v1.Status (swap src dst).2 = v1.Status dst.
Proof. unfold swap. cbn. by destruct (BaseService_swap _ _). Qed.

(** X14: a [Swap] that returns no error fetched two ready services and wrote
    exactly two updates, both answered without error, in one namespace: the
    first service with the selector of the second and the second with the
    selector of the first, ports and status of each as fetched. *)
Theorem Swap_success w appSrc appDst w' t :
  run handle (Swap appSrc appDst) w = (None, w', t) →
  ∃ ns src dst,
    fetched t = [src; dst]
    ∧ isReady src = true ∧ isReady dst = true
    ∧ updates t = [(ns, (swap src dst).1, None); (ns, (swap src dst).2, None)]
    ∧ written t = [(swap src dst).1; (swap src dst).2]
    ∧ v1.Selector (v1.Spec (swap src dst).1) = v1.Selector (v1.Spec dst)
    ∧ v1.Selector (v1.Spec (swap src dst).2) = v1.Selector (v1.Spec src)
    ∧ v1.Ports (v1.Spec (swap src dst).1) = v1.Ports (v1.Spec src)
    ∧ v1.Ports (v1.Spec (swap src dst).2) = v1.Ports (v1.Spec dst)
    ∧ v1.Status (swap src dst).1 = v1.Status src
    ∧ v1.Status (swap src dst).2 = v1.Status dst.
Proof.
  unfold Swap.
  run_step. destruct x as [e|]; [done|].
  run_step. destruct x as [e|ns]; [done|].
  run_step. destruct x as [e|src]; [done|].
  destruct (isReady src) eqn:Hsrc; cbn [negb]; [|done].
  run_step. destruct x as [e|]; [done|].
  run_step. destruct x as [e|nsd]; [done|].
  run_step. destruct x as [e|dst]; [done|].
  destruct (isReady dst) eqn:Hdst; cbn [negb]; [|done].
  destruct (swap src dst) as [src1 dst1] eqn:Hswap.
  run_step. destruct x as [e|]; [done|].
  run_step. destruct x as [e|ns']; [done|].
  run_step. destruct x as [e|ns2']; [done|].
  destruct (String.eqb ns' ns2'); cbn [negb]; [|done].
  run_step. destruct x as [e|]; [done|].
  run_step. destruct x as [e|].
  { destruct (swap src1 dst1) as [src2 dst2]. run_step. by destruct x. }
  intros [= <- <-].
  exists ns', src, dst.
  destruct (swap_fields src dst) as (? & ? & ? & ? & _ & _ & ? & ?).
  rewrite Hswap in *. by split_and!.
Qed.

(** X15: when the first update of a [Swap] fails, its error is returned and
    nothing else is written: no second update, no rollback. *)
Theorem Swap_first_update_fails w appSrc appDst err w' t ns1 s1 e1 rest :
  run handle (Swap appSrc appDst) w = (err, w', t) →
  updates t = (ns1, s1, Some e1) :: rest →
  rest = [] ∧ written t = [s1] ∧ err = Some e1
  ∧ ∃ src dst, fetched t = [src; dst] ∧ s1 = (swap src dst).1.
Proof.
  unfold Swap.
  run_step. destruct x as [e|]; [by intros [= <- <- <-]|].
  run_step. destruct x as [e|ns]; [by intros [= <- <- <-]|].
  run_step. destruct x as [e|src]; [by intros [= <- <- <-]|].
  destruct (isReady src); cbn [negb]; [|by intros [= <- <- <-]].
  run_step. destruct x as [e|]; [by intros [= <- <- <-]|].
  run_step. destruct x as [e|nsd]; [by intros [= <- <- <-]|].
  run_step. destruct x as [e|dst]; [by intros [= <- <- <-]|].
  destruct (isReady dst); cbn [negb]; [|by intros [= <- <- <-]].
  destruct (swap src dst) as [src1 dst1] eqn:Hswap.
  run_step. destruct x as [e|]; [by intros [= <- <- <-]|].
  run_step. destruct x as [e|ns']; [by intros [= <- <- <-]|].
  run_step. destruct x as [e|ns2']; [by intros [= <- <- <-]|].
  destruct (String.eqb ns' ns2'); cbn [negb]; [|by intros [= <- <- <-]].
  run_step. destruct x as [e|].
  { intros [= <- <- <-]. cbn [fetched updates written ev_req mbind list_bind Datatypes.app].
    intros [= <- <- <- <-]. split_and!; [done..|].
    exists src, dst. by rewrite Hswap. }
  run_step. destruct x as [e|]; [|by intros [= <- <- <-]].
  destruct (swap src1 dst1) as [src2 dst2].
  run_step. by destruct x; intros [= <- <- <-].
Qed.

Ltac ns_leaf :=
  intros [= <- <- <-]; cbn [namespaces mbind list_bind Datatypes.app];
  try done; intros [= <- <- <- <-]; done.

(** X16: when the two applications of a [Swap] resolve to different namespaces
    the call fails with a message naming both, and writes nothing. *)
Theorem Swap_namespace_mismatch w appSrc appDst err w' t n1 n2 ns ns2 :
  run handle (Swap appSrc appDst) w = (err, w', t) →
  namespaces t = [n1; n2; ns; ns2] →
  ns ≠ ns2 →
  err = Some (Errorf ("unable to swap apps with different namespaces: "
                        +:+ ns +:+ " != " +:+ ns2))
  ∧ written t = [].
Proof.
  unfold Swap.
  run_step. destruct x as [e|]; [ns_leaf|].
  run_step. destruct x as [e|ns0]; [ns_leaf|].
  run_step. destruct x as [e|src]; [ns_leaf|].
  destruct (isReady src); cbn [negb]; [|ns_leaf].
  run_step. destruct x as [e|]; [ns_leaf|].
  run_step. destruct x as [e|nsd]; [ns_leaf|].
  run_step. destruct x as [e|dst]; [ns_leaf|].
  destruct (isReady dst); cbn [negb]; [|ns_leaf].
  destruct (swap src dst) as [src1 dst1] eqn:Hswap.
  run_step. destruct x as [e|]; [ns_leaf|].
  run_step. destruct x as [e|ns']; [ns_leaf|].
  run_step. destruct x as [e|ns2']; [ns_leaf|].
  destruct (String.eqb ns' ns2') eqn:Heq; cbn [negb].
  - apply String.eqb_eq in Heq. subst ns2'.
    run_step. destruct x as [e|]; [ns_leaf|].
    run_step. destruct x as [e|]; [|ns_leaf].
    destruct (swap src1 dst1) as [src2 dst2].
    run_step. by destruct x; intros [= <- <- <-] [= <- <- <- <-].
  - intros [= <- <- <-]; cbn [namespaces written ev_req mbind list_bind Datatypes.app].
    by intros [= <- <- <- <-] _.
Qed.

Ltac quiet_leaf :=
  intros [= <- <- <-]; cbn [updates written ev_req mbind list_bind Datatypes.app];
  split_and!; [done|simpl; lia|by intros ? ? ?%elem_of_nil|done].

(** X17: [Swap] only ever updates (it never creates), at most three times, all
    in one namespace, and only after fetching two ready services. *)
Theorem Swap_writes_guarded w appSrc appDst err w' t :
  run handle (Swap appSrc appDst) w = (err, w', t) →
  written t = (updates t).*1.*2
  ∧ length (updates t) ≤ 3
  ∧ (∀ u1 u2, u1 ∈ updates t → u2 ∈ updates t → u1.1.1 = u2.1.1)
  ∧ (updates t ≠ [] →
     ∃ src dst, fetched t = [src; dst] ∧ isReady src = true ∧ isReady dst = true).
Proof.
  unfold Swap.
  assert (∀ (ns : string) (l : list (v1.Service * option error)) (u1 u2 : string * v1.Service * option error),
    u1 ∈ (λ x, (ns, x.1, x.2)) <$> l → u2 ∈ (λ x, (ns, x.1, x.2)) <$> l → u1.1.1 = u2.1.1) as Hns.
  { intros ns l u1 u2 (x1 & -> & _)%list_elem_of_fmap (x2 & -> & _)%list_elem_of_fmap. done. }
  run_step. destruct x as [e|]; [quiet_leaf|].
  run_step. destruct x as [e|ns]; [quiet_leaf|].
  run_step. destruct x as [e|src]; [quiet_leaf|].
  destruct (isReady src) eqn:Hsrc; cbn [negb]; [|quiet_leaf].
  run_step. destruct x as [e|]; [quiet_leaf|].
  run_step. destruct x as [e|nsd]; [quiet_leaf|].
  run_step. destruct x as [e|dst]; [quiet_leaf|].
  destruct (isReady dst) eqn:Hdst; cbn [negb]; [|quiet_leaf].
  destruct (swap src dst) as [src1 dst1] eqn:Hswap.
  run_step. destruct x as [e|]; [quiet_leaf|].
  run_step. destruct x as [e|ns']; [quiet_leaf|].
  run_step. destruct x as [e|ns2']; [quiet_leaf|].
  destruct (String.eqb ns' ns2'); cbn [negb]; [|quiet_leaf].
  run_step. destruct x as [e|].
  { intros [= <- <- <-]. split_and!; [done|simpl; lia| |by exists src, dst].
    apply (Hns ns' [(src1, Some e)]). }
  run_step. destruct x as [e|].
  - destruct (swap src1 dst1) as [src2 dst2].
    run_step. destruct x as [e3|]; intros [= <- <- <-];
      (split_and!; [done|simpl; lia| |by exists src, dst]).
    + apply (Hns ns' [(src1, None); (dst1, Some e); (src2, Some e3)]).
    + apply (Hns ns' [(src1, None); (dst1, Some e); (src2, None)]).
  - intros [= <- <- <-]. split_and!; [done|simpl; lia| |by exists src, dst].
    apply (Hns ns' [(src1, None); (dst1, None)]).
Qed.
End SwapMore.

(** ** The sync engine, again *)

Section SyncMore.
Context `{Externals} {W : Type}.
Variable handle : ∀ r : Request, W → Response r * W.

Ltac unfold_prog :=
  cbn [run bind mbind mret Prog_bind Prog_ret call getLBService].

Ltac decide_on d := first [is_var d; destruct d | destruct d eqn:?].

(** One step of a run: answer the next request, or decide the next test
    of the program. *)
Ltac walk_step :=
  unfold_prog;
  first
    [ match goal with
      | |- context [handle ?r ?w] =>
          let x := fresh "x" in let w1 := fresh "w" in
          destruct (handle r w) as [x w1]; cbn [Response] in x
      end
    | match goal with
      | |- context [run handle (bind (match ?d with _ => _ end) _) _] => decide_on d
      end
    | match goal with
      | |- context [run handle (match (match ?d with _ => _ end) with _ => _ end) _] =>
          decide_on d
      end
    | match goal with
      | |- context [run handle (match ?d with _ => _ end) _] => decide_on d
      end ].

Ltac walk := repeat walk_step; unfold_prog.

Ltac split_elem :=
  repeat match goal with
    | H : _ ∈ [] |- _ => by apply elem_of_nil in H
    | H : _ ∈ _ :: _ |- _ => apply elem_of_cons in H as [->|H]
    end.

Lemma portsForService_ext (svc svc' : v1.Service) app opts baseSvc :
  v1.Ports (v1.Spec svc) = v1.Ports (v1.Spec svc') →
  portsForService svc app opts baseSvc = portsForService svc' app opts baseSvc.
Proof.
  intros Heq. unfold portsForService, portsForService_in, portsForService_setup.
  by rewrite Heq.
Qed.

Lemma desired_fill (s : LBService) appName app (lb0 : v1.Service) web o lb1 ports web2 :
  fillLabelsAndAnnotations s
    (match web with
     | Some w => v1.set_Selector lb0 (v1.Selector (v1.Spec w))
     | None => lb0
     end) appName web o = inr lb1 →
  portsForService lb1 app o web = (ports, web2) →
  ∃ a, ToAnnotations o = inr a
       ∧ (∃ order, order ≡ₚ map_to_list (OptsAsLabels s)
                   ∧ v1.set_Ports lb1 ports = desired order s appName app lb0 web o a)
       ∧ ((∀ o1 o2 label,
             OptsAsLabels s !! o1 = Some label → OptsAsLabels s !! o2 = Some label →
             is_Some (router.AdditionalOpts o !! o1) →
             is_Some (router.AdditionalOpts o !! o2) → o1 = o2) →
          ∀ order, order ≡ₚ map_to_list (OptsAsLabels s) →
            v1.set_Ports lb1 ports = desired order s appName app lb0 web o a).
Proof.
  unfold fillLabelsAndAnnotations, fillLabelsAndAnnotations_in.
  destruct (ToAnnotations o) as [err|a]; [done|].
  intros [= <-] Hports. exists a. split; [done|].
  rewrite (portsForService_ext _ lb0) in Hports by (by destruct web).
  match goal with
  | |- (∃ order, _ ∧ ?lhs = _) ∧ _ =>
      assert (lhs = desired (map_to_list (OptsAsLabels s)) s appName app lb0 web o a)
        as Hmodel
  end.
  { unfold desired. rewrite Hports. by destruct web. }
  split.
  - by exists (map_to_list (OptsAsLabels s)).
  - intros Hinj order Hp. rewrite Hmodel. unfold desired.
    by rewrite (optsLabels_loop_order s o order Hp Hinj).
Qed.

Ltac desired_leaf :=
  let Hin := fresh "Hin" in
  intros [= <- <- <-];
  cbn [written apps fetched backend_answers ev_req mbind list_bind Datatypes.app
       fmap list_fmap fst snd mem_lb];
  intros Hin; split_elem;
  (match goal with
   | Hf : fillLabelsAndAnnotations _ _ _ ?web ?o = inr ?lb1,
     Hp : portsForService ?lb1 ?app ?o ?web = _ |- _ =>
       let a := fresh "a" in
       destruct (desired_fill _ _ app _ web o lb1 _ _ Hf Hp) as (a & ? & ? & ?);
       eexists app, _, web, o, a
   end;
   split_and!;
   [ reflexivity
   | first [left; reflexivity | right; split; reflexivity]
   | reflexivity
   | first [left; reflexivity | right; split; [reflexivity|eassumption]]
   | eassumption
   | eassumption
   | eassumption
   | eassumption
   | reflexivity ]).

(** X18: whatever [syncLB] writes is a service [desired]: name, namespace,
    type and status of the balancer service it fetched (or of a new one,
    when none was found), the selector of the backend service when there is
    one, merged labels and annotations, and the resolved ports; the service
    is not swapped, and the options are the caller's or, without any, the
    ones parsed from the service's metadata.  The labels derived from the
    options are those of some order of the range over [OptsAsLabels]; when
    no two options in force are mapped to the same label, every order
    gives the service written. *)
Theorem syncLB_writes_desired s appName opts isUpdate w out w' t svc :
  run handle (syncLB s appName opts isUpdate) w = (out, w', t) →
  svc ∈ written t →
  ∃ app lb0 web o a,
    apps t = [app]
    ∧ (fetched t = [lb0] ∨ (fetched t = [] ∧ lb0 = newLBService s appName app))
    ∧ (backend_answers t).*1 = [web]
    ∧ (opts = Some o ∨ (opts = None ∧ OptsFromAnnotations (v1.ObjectMeta lb0) = inr o))
    ∧ ToAnnotations o = inr a
    ∧ (isSwapped (v1.ObjectMeta lb0)).2 = false
    ∧ (∃ order, order ≡ₚ map_to_list (OptsAsLabels s)
                ∧ svc = desired order s appName app lb0 web o a)
    ∧ ((∀ o1 o2 label,
          OptsAsLabels s !! o1 = Some label → OptsAsLabels s !! o2 = Some label →
          is_Some (router.AdditionalOpts o !! o1) →
          is_Some (router.AdditionalOpts o !! o2) → o1 = o2) →
       ∀ order, order ≡ₚ map_to_list (OptsAsLabels s) →
         svc = desired order s appName app lb0 web o a)
    ∧ mem_lb out.2 = Some svc.
Proof.
  unfold syncLB. walk. all: desired_leaf.
Qed.

Ltac protocol_leaf :=
  intros [= <- <- <-];
  cbn [write_events is_write ev_req mbind list_bind Datatypes.app fst snd];
  first
    [ left; reflexivity
    | right; left; do 3 eexists;
      split_and!; [reflexivity|reflexivity|first [assumption|exact I]|reflexivity]
    | right; right; do 4 eexists;
      split_and!; [reflexivity|assumption|reflexivity|reflexivity] ].

(** X19: [syncLB] writes nothing, or updates once, or updates and then creates
    the same service in the same namespace, its own; it creates exactly
    when the update was answered not-found, and it returns what the last
    write was answered. *)
Theorem syncLB_write_protocol s appName opts isUpdate w out w' t :
  run handle (syncLB s appName opts isUpdate) w = (out, w', t) →
  write_events t = []
  ∨ (∃ ns lb r,
       write_events t = [Ev (ServicesUpdate ns lb) r]
       ∧ out.1 = r
       ∧ match r with Some e => IsNotFound e = false | None => True end
       ∧ ns = metav1.Namespace (v1.ObjectMeta lb))
  ∨ (∃ ns lb e r,
       write_events t = [Ev (ServicesUpdate ns lb) (Some e); Ev (ServicesCreate ns lb) r]
       ∧ IsNotFound e = true
       ∧ out.1 = r
       ∧ ns = metav1.Namespace (v1.ObjectMeta lb)).
Proof.
  unfold syncLB. walk. all: protocol_leaf.
Qed.

Ltac backend_leaf :=
  let Hb := fresh "Hb" in
  intros [= <- <- <-];
  cbn [backend_answers written ev_req mbind list_bind Datatypes.app fst snd mem_web];
  intros Hb ?; try discriminate Hb;
  injection Hb as ? ?; subst;
  first [by split_and! | congruence].

(** X20: when the lookup of the backend service fails on an update, or fails
    on a create with anything but the no-service error, [syncLB] returns that
    error and writes nothing. *)
Theorem syncLB_backend_error s appName opts isUpdate w out w' t web e :
  run handle (syncLB s appName opts isUpdate) w = (out, w', t) →
  backend_answers t = [(web, Some e)] →
  isUpdate || negb (isErrNoService e) = true →
  out.1 = Some e ∧ mem_web out.2 = web ∧ written t = [].
Proof.
  unfold syncLB. walk. all: backend_leaf.
Qed.

Ltac tolerated_leaf :=
  let Hb := fresh "Hb" in
  intros [= <- <- <-];
  cbn [backend_answers client_errors updates ev_req mbind list_bind
       Datatypes.app fst snd];
  intros Hb ? ? ?; try discriminate;
  injection Hb as ? ?; subst;
  try match goal with
    | Hf : fillLabelsAndAnnotations _ _ _ _ _ = inl _ |- _ =>
        apply fillLabelsAndAnnotations_error in Hf
    end;
  try match goal with
    | Hx : isErrNoService ?e = true, Hy : context [negb (isErrNoService ?e)] |- _ =>
        rewrite Hx in Hy
    end;
  first [reflexivity | simpl in *; congruence].

(** X21: a [Create] whose backend-service lookup fails with the no-service
    error goes on and issues its update, provided the options serialise and
    a client is obtained. *)
Theorem Create_backend_tolerated s appName o w out w' t web e a :
  run handle (Create s appName o) w = (out, w', t) →
  backend_answers t = [(web, Some e)] →
  isErrNoService e = true →
  ToAnnotations o = inr a →
  client_errors t = [] →
  length (updates t) = 1.
Proof.
  unfold Create, syncLB. walk. all: tolerated_leaf.
Qed.

Ltac annotations_leaf :=
  let Hf := fresh "Hf" in
  intros [= <- <- <-];
  cbn [fetched backend_answers written ev_req mbind list_bind Datatypes.app fst snd];
  intros Hf ? ?; try discriminate Hf;
  injection Hf as ?; subst;
  first [split_and!; first [done|congruence] | congruence].

(** X22: an [Update] of a service that is not swapped and whose metadata does
    not parse into options returns the parser's error, without looking up
    the backend service and without writing. *)
Theorem Update_bad_annotations s appName w out w' t lb0 e :
  run handle (Update s appName) w = (out, w', t) →
  fetched t = [lb0] →
  (isSwapped (v1.ObjectMeta lb0)).2 = false →
  OptsFromAnnotations (v1.ObjectMeta lb0) = inl e →
  out.1 = Some e ∧ backend_answers t = [] ∧ written t = [].
Proof.
  unfold Update, syncLB. walk. all: annotations_leaf.
Qed.
End SyncMore.

(** ** Removal *)

Section RemoveFacts.
Context `{Externals} {W : Type}.
Variable handle : ∀ r : DRequest, W → DResponse r * W.

Ltac unfold_dprog :=
  cbn [drun dbind mbind mret DProg_bind DProg_ret dcall lift
       bind Prog_bind Prog_ret call getLBService].

Ltac drun_step :=
  unfold_dprog;
  match goal with
  | |- context [handle ?r ?w] =>
      let x := fresh "x" in let w1 := fresh "w" in
      destruct (handle r w) as [x w1]; cbn [DResponse Response] in x
  end.

Ltac remove_leaf :=
  unfold_dprog; intros [= <- <- <-];
  cbn [deletions plain fetched written namespaces ev_req mbind list_bind Datatypes.app].

(** X23: [Remove] of a swapped service fails with [ErrAppSwapped] carrying
    the application and its peer; nothing is deleted or written. *)
Theorem Remove_swapped appName w out w' t svc dstApp :
  drun handle (Remove appName) w = (out, w', t) →
  fetched (plain t) = [svc] →
  isSwapped (v1.ObjectMeta svc) = (dstApp, true) →
  out = Some (ErrAppSwapped appName dstApp)
  ∧ deletions t = []
  ∧ written (plain t) = [].
Proof.
  unfold Remove.
  drun_step. destruct x as [e|]; [by remove_leaf|].
  drun_step. destruct x as [e|].
  { unfold_dprog. by destruct (IsNotFound e); remove_leaf. }
  drun_step. destruct x as [e|ns].
  { unfold_dprog. by destruct (IsNotFound e); remove_leaf. }
  drun_step. destruct x as [e|service].
  { unfold_dprog. by destruct (IsNotFound e); remove_leaf. }
  unfold_dprog.
  destruct (isSwapped (v1.ObjectMeta service)) as [dst [|]] eqn:Hsw.
  { remove_leaf. intros [= <-] Hsw'. rewrite Hsw in Hsw'. by injection Hsw' as <-. }
  drun_step. destruct x as [e|ns'].
  { remove_leaf. intros [= <-] Hsw'. congruence. }
  drun_step. unfold_dprog.
  destruct (match x with Some e => IsNotFound e | None => false end);
    remove_leaf; intros [= <-] Hsw'; congruence.
Qed.

Ltac nil_leaf :=
  unfold_dprog; intros [= <- <-];
  cbn [deletions plain fetched written namespaces ev_req mbind list_bind Datatypes.app].

(** X24: [Remove] returns no error only when no service was fetched and nothing
    deleted, or when the fetched service, not swapped, was deleted by name
    and the deletion answered no error or not-found. *)
Theorem Remove_nil appName w w' t :
  drun handle (Remove appName) w = (None, w', t) →
  (fetched (plain t) = [] ∧ deletions t = [])
  ∨ ∃ svc ns r,
      fetched (plain t) = [svc]
      ∧ (isSwapped (v1.ObjectMeta svc)).2 = false
      ∧ deletions t = [(ns, metav1.Name (v1.ObjectMeta svc), r)]
      ∧ match r with Some e => IsNotFound e = true | None => True end.
Proof.
  unfold Remove.
  drun_step. destruct x as [e|]; [by unfold_dprog|].
  drun_step. destruct x as [e|].
  { unfold_dprog. destruct (IsNotFound e); [|done]. nil_leaf. by left. }
  drun_step. destruct x as [e|ns].
  { unfold_dprog. destruct (IsNotFound e); [|done]. nil_leaf. by left. }
  drun_step. destruct x as [e|service].
  { unfold_dprog. destruct (IsNotFound e); [|done]. nil_leaf. by left. }
  unfold_dprog.
  destruct (isSwapped (v1.ObjectMeta service)) as [dst [|]] eqn:Hsw; [by unfold_dprog|].
  drun_step. destruct x as [e|ns']; [by unfold_dprog|].
  drun_step. unfold_dprog.
  destruct x as [e|].
  - destruct (IsNotFound e) eqn:Hnf; [|done]. nil_leaf.
    right. exists service, ns', (Some e). by rewrite Hsw.
  - nil_leaf. right. exists service, ns', None. by rewrite Hsw.
Qed.

(** X25: [Remove] never updates or creates and deletes at most once: the
    fetched service, which is not swapped, by its name, in the namespace
    last answered for the application; its result is then nil when the
    deletion succeeded or answered not-found, and the deletion's error
    otherwise. *)
Theorem Remove_deletes_once appName w out w' t :
  drun handle (Remove appName) w = (out, w', t) →
  written (plain t) = []
  ∧ length (deletions t) ≤ 1
  ∧ ∀ ns name r, (ns, name, r) ∈ deletions t →
      (∃ svc, fetched (plain t) = [svc]
              ∧ name = metav1.Name (v1.ObjectMeta svc)
              ∧ (isSwapped (v1.ObjectMeta svc)).2 = false)
      ∧ last (namespaces (plain t)) = Some ns
      ∧ out = match r with
              | Some e => if IsNotFound e then None else Some (Failed e)
              | None => None
              end.
Proof.
  unfold Remove.
  drun_step. destruct x as [e|].
  { remove_leaf. split_and!; [done|simpl; lia|]. intros ??? Hin; by apply elem_of_nil in Hin. }
  drun_step. destruct x as [e|].
  { unfold_dprog. destruct (IsNotFound e); remove_leaf;
      (split_and!; [done|simpl; lia|]); intros ??? Hin; by apply elem_of_nil in Hin. }
  drun_step. destruct x as [e|ns].
  { unfold_dprog. destruct (IsNotFound e); remove_leaf;
      (split_and!; [done|simpl; lia|]); intros ??? Hin; by apply elem_of_nil in Hin. }
  drun_step. destruct x as [e|service].
  { unfold_dprog. destruct (IsNotFound e); remove_leaf;
      (split_and!; [done|simpl; lia|]); intros ??? Hin; by apply elem_of_nil in Hin. }
  unfold_dprog.
  destruct (isSwapped (v1.ObjectMeta service)) as [dst [|]] eqn:Hsw.
  { remove_leaf. split_and!; [done|simpl; lia|]. intros ??? Hin; by apply elem_of_nil in Hin. }
  drun_step. destruct x as [e|ns'].
  { remove_leaf. split_and!; [done|simpl; lia|]. intros ??? Hin; by apply elem_of_nil in Hin. }
  drun_step. unfold_dprog.
  destruct x as [e|]; [destruct (IsNotFound e) eqn:Hnf|]; remove_leaf;
    (split_and!; [done|simpl; lia|]);
    intros ns0 name r [= -> -> ->]%list_elem_of_singleton;
    (split_and!; [exists service; by rewrite Hsw|done|by rewrite ?Hnf]).
Qed.
End RemoveFacts.

(** ** The further properties on the sample deployments *)

Lemma getLBService_lookup_witness :
  let c := Sample.cluster [Sample.blue] [] [] in
  let out := run Sample.handle (getLBService "blue") c in
  out.1.1 = inr Sample.blue
  ∧ written out.2 = []
  ∧ fetched out.2 = [Sample.blue].
Proof.
  intros c out.
  assert (out.1.1 = inr Sample.blue) as Hr by (vm_compute; reflexivity).
  destruct (getLBService_lookup Sample.handle c "blue" out.1.1 out.1.2 out.2 (triple_eta out))
    as (Hw & Hf & _).
  split_and!; [exact Hr|exact Hw|exact (Hf _ Hr)].
Defined.

Lemma Get_ready_address_witness :
  let c := Sample.cluster [Sample.blue] [] [] in
  ∃ addr : string,
    (run Sample.handle (Get "blue") c).1.1 = inr {[ "address" := addr ]} ∧ addr ≠ "".
Proof.
  intros c.
  destruct (Get_ready_address Sample.handle c "blue" Sample.blue c
              (run Sample.handle (getLBService "blue") c).2)
    as (addr & Hrun & Hne).
  { vm_compute. reflexivity. }
  { reflexivity. }
  exists addr. by rewrite Hrun.
Defined.

Lemma SupportedOptions_loop_order_witness :
  let s := Sample.service {[ "flavor" := "example.io/flavor"; "zone" := "example.io/zone" ]}
                          {[ "zone" := "Availability zone" ]} in
  SupportedOptions_loop s (reverse (map_to_list (OptsAsLabels s))) ∅
  = SupportedOptions_loop s (map_to_list (OptsAsLabels s)) ∅.
Proof.
  intros s. apply SupportedOptions_loop_order. apply reverse_Permutation.
Defined.

Lemma fillLabelsAndAnnotations_annotations_witness :
  let s := Sample.service ∅ ∅ in
  let o := Sample.opts "pool1" "8080" ∅ in
  ∃ svc',
    fillLabelsAndAnnotations s Sample.blue "blue" (Some Sample.web) o = inr svc'
    ∧ metav1.Annotations (v1.ObjectMeta svc') !! "router.tsuru.io/opts-pool" = Some "pool1".
Proof.
  intros s o.
  destruct (fillLabelsAndAnnotations_annotations s Sample.blue "blue" (Some Sample.web) o
              (map_to_list (OptsAsLabels s))
              (<["router.tsuru.io/opts-pool" := "pool1"]>
                 (<["router.tsuru.io/opts-exposed-port" := "8080"]> ∅)))
    as (svc' & Hrun & Hann).
  { reflexivity. }
  exists svc'. split; [exact Hrun|]. rewrite Hann. vm_compute. reflexivity.
Defined.

Lemma fillLabelsAndAnnotations_identity_witness :
  let s := Sample.service ∅ ∅ in
  let o := Sample.opts "pool1" "8080" ∅ in
  ∃ svc',
    fillLabelsAndAnnotations s Sample.blue "blue" None o = inr svc'
    ∧ metav1.Labels (v1.ObjectMeta svc') !! "tsuru.io/app-pool" = Some "pool1".
Proof.
  intros s o.
  destruct (fillLabelsAndAnnotations s Sample.blue "blue" None o) as [err|svc'] eqn:Hrun;
    [by vm_compute in Hrun|].
  exists svc'. split; [reflexivity|].
  apply (fillLabelsAndAnnotations_identity s Sample.blue "blue" None o
           (map_to_list (OptsAsLabels s)) svc'); try done.
  right. right. left.
Defined.

Lemma fillLabelsAndAnnotations_any_order_witness :
  let s := Sample.service {[ "flavor" := "example.io/flavor"; "zone" := "example.io/zone" ]} ∅ in
  let o := Sample.opts "pool1" "" {[ "flavor" := "large"; "zone" := "b" ]} in
  fillLabelsAndAnnotations_in (reverse (map_to_list (OptsAsLabels s))) s Sample.blue "blue" None o
  = fillLabelsAndAnnotations s Sample.blue "blue" None o.
Proof.
  intros s o. apply fillLabelsAndAnnotations_any_order.
  - apply reverse_Permutation.
  - intros o1 o2 label H1 H2 _ _.
    apply elem_of_map_to_list in H1, H2.
    assert (map_to_list (OptsAsLabels s)
            = [("flavor", "example.io/flavor"); ("zone", "example.io/zone")]) as Hl.
    { vm_compute. reflexivity. }
    rewrite Hl in H1, H2.
    apply elem_of_cons in H1 as [H1|H1%list_elem_of_singleton];
      apply elem_of_cons in H2 as [H2|H2%list_elem_of_singleton];
      congruence.
Defined.

(** The condition is needed: with two supplied options mapped to one
    label, the label takes the value of whichever the range visits
    last. *)
Example optsLabels_loop_collision :
  let s := Sample.service {[ "flavor" := "example.io/size"; "zone" := "example.io/size" ]} ∅ in
  let o := Sample.opts "" "" {[ "flavor" := "large"; "zone" := "b" ]} in
  let order := map_to_list (OptsAsLabels s) in
  optsLabels_loop o order !! "example.io/size" = Some "b"
  ∧ optsLabels_loop o (reverse order) !! "example.io/size" = Some "large".
Proof. split; by vm_compute. Qed.

Lemma portsForService_order_witness :
  portsForService_in (λ m, reverse (map_to_list m)) Sample.blue None Sample.allPorts
    (Some Sample.web)
  = portsForService Sample.blue None Sample.allPorts (Some Sample.web).
Proof.
  apply portsForService_order. intros m. apply reverse_Permutation.
Defined.

Lemma portsForService_single_witness :
  portsForService Sample.blue None (Sample.opts "" "" ∅) (Some Sample.web)
  = ([Sample.port "port-80" 80 8888 30080], Some Sample.web).
Proof.
  rewrite (portsForService_single Sample.blue None (Sample.opts "" "" ∅) (Some Sample.web))
    by reflexivity.
  vm_compute. reflexivity.
Defined.

Lemma Swap_success_witness :
  let c := Sample.cluster [Sample.blue; Sample.green] [] [] in
  let out := run Sample.handle (Swap "blue" "green") c in
  out.1.1 = None
  ∧ ∃ src dst, fetched out.2 = [src; dst]
      ∧ written out.2 = [(swap src dst).1; (swap src dst).2]
      ∧ v1.Selector (v1.Spec (swap src dst).1) = v1.Selector (v1.Spec dst).
Proof.
  intros c out.
  assert (out.1.1 = None) as Hnil by (vm_compute; reflexivity).
  split; [exact Hnil|].
  assert (run Sample.handle (Swap "blue" "green") c = (None, out.1.2, out.2)) as Hrun.
  { rewrite <-Hnil. apply triple_eta. }
  destruct (Swap_success Sample.handle c "blue" "green" out.1.2 out.2 Hrun)
    as (ns & src & dst & Hf & _ & _ & _ & Hw & Hsel & _).
  by exists src, dst.
Defined.

Lemma Swap_first_update_fails_witness :
  let c := Sample.cluster [Sample.blue; Sample.green] [] [Some Sample.conflict] in
  let out := run Sample.handle (Swap "blue" "green") c in
  updates out.2 = [("default", (swap Sample.blue Sample.green).1, Some Sample.conflict)]
  ∧ out.1.1 = Some Sample.conflict
  ∧ written out.2 = [(swap Sample.blue Sample.green).1].
Proof.
  intros c out.
  assert (updates out.2
          = [("default", (swap Sample.blue Sample.green).1, Some Sample.conflict)]) as Hupd.
  { vm_compute. reflexivity. }
  destruct (Swap_first_update_fails Sample.handle c "blue" "green" out.1.1 out.1.2 out.2
              _ _ _ _ (triple_eta out) Hupd) as (_ & Hw & Herr & _).
  by split_and!.
Defined.

Lemma Swap_namespace_mismatch_witness :
  let c := Sample.cluster [Sample.blue; Sample.green] [] [] in
  let out := run Tenants.handle (Swap "blue" "green") c in
  namespaces out.2 = ["blue"; "green"; "blue"; "green"]
  ∧ out.1.1 = Some (Errorf "unable to swap apps with different namespaces: blue != green")
  ∧ written out.2 = [].
Proof.
  intros c out.
  assert (namespaces out.2 = ["blue"; "green"; "blue"; "green"]) as Hns.
  { vm_compute. reflexivity. }
  destruct (Swap_namespace_mismatch Tenants.handle c "blue" "green" out.1.1 out.1.2 out.2
              _ _ _ _ (triple_eta out) Hns) as (Herr & Hw); [done|].
  by split_and!.
Defined.

Lemma Swap_writes_guarded_witness :
  let c := Sample.cluster [Sample.blue; Sample.green] [] [None; Some Sample.conflict] in
  let out := run Sample.handle (Swap "blue" "green") c in
  written out.2 = (updates out.2).*1.*2 ∧ length (updates out.2) ≤ 3.
Proof.
  intros c out.
  destruct (Swap_writes_guarded Sample.handle c "blue" "green" out.1.1 out.1.2 out.2
              (triple_eta out)) as (Hw & Hlen & _).
  by split.
Defined.

Lemma syncLB_writes_desired_witness :
  let c := Sample.cluster [Sample.blue] [("blue", Sample.web)] [] in
  let s := Sample.service {[ "flavor" := "example.io/flavor"; "zone" := "example.io/zone" ]} ∅ in
  let o := Sample.opts "" "8080"
             {[ exposeAllPortsOpt := "true"; "flavor" := "large"; "zone" := "b" ]} in
  let out := run Sample.handle (Create s "blue" o) c in
  let app := Some {| tsuruv1.NamespaceName := "default" |} in
  let a := <["router.tsuru.io/opts-pool" := ""]>
             (<["router.tsuru.io/opts-exposed-port" := "8080"]> ∅) in
  let svc := desired (map_to_list (OptsAsLabels s)) s "blue" app Sample.blue
               (Some Sample.web) o a in
  svc ∈ written out.2
  ∧ mem_lb out.1.1.2 = Some svc
  ∧ svc = desired (reverse (map_to_list (OptsAsLabels s))) s "blue" app Sample.blue
            (Some Sample.web) o a.
Proof.
  intros c s o out app a svc.
  assert (svc ∈ written out.2) as Hin.
  { vm_compute. left. }
  split; [exact Hin|].
  destruct (syncLB_writes_desired Sample.handle s "blue" (Some o) false c
              out.1.1 out.1.2 out.2 svc (triple_eta out) Hin)
    as (app' & lb0 & web & o' & a' & Happ & Hf & Hweb & Ho & Ha & _ & _ & Hany & Hmem).
  split; [exact Hmem|].
  assert (apps out.2 = [app]) as Happs by (vm_compute; reflexivity).
  rewrite Happs in Happ. injection Happ as <-.
  assert (fetched out.2 = [Sample.blue]) as Hfetched by (vm_compute; reflexivity).
  rewrite Hfetched in Hf. destruct Hf as [[= <-]|[Hnil _]]; [|discriminate Hnil].
  assert ((backend_answers out.2).*1 = [Some Sample.web]) as Hb by (vm_compute; reflexivity).
  rewrite Hb in Hweb. injection Hweb as <-.
  destruct Ho as [[= <-]|[Hnone _]]; [|discriminate Hnone].
  assert (ToAnnotations o = inr a) as Ha' by (vm_compute; reflexivity).
  rewrite Ha' in Ha. injection Ha as <-.
  apply Hany; [|apply reverse_Permutation].
  intros o1 o2 label H1 H2 _ _.
  apply elem_of_map_to_list in H1, H2.
  assert (map_to_list (OptsAsLabels s)
          = [("flavor", "example.io/flavor"); ("zone", "example.io/zone")]) as Hl.
  { vm_compute. reflexivity. }
  rewrite Hl in H1, H2.
  apply elem_of_cons in H1 as [H1|H1%list_elem_of_singleton];
    apply elem_of_cons in H2 as [H2|H2%list_elem_of_singleton];
    congruence.
Defined.

Lemma syncLB_write_protocol_witness :
  let c := Sample.cluster [] [("blue", Sample.web)] [] in
  let out := run Sample.handle (Create (Sample.service ∅ ∅) "blue" Sample.allPorts) c in
  length (write_events out.2) = 2 ∧ out.1.1.1 = None.
Proof.
  intros c out.
  destruct (syncLB_write_protocol Sample.handle (Sample.service ∅ ∅) "blue"
              (Some Sample.allPorts) false c out.1.1 out.1.2 out.2 (triple_eta out))
    as [Hnone|[(ns & lb & r & Hw & Hr & _)|(ns & lb & e & r & Hw & _ & Hr & _)]].
  - by vm_compute in Hnone.
  - apply (f_equal length) in Hw. by vm_compute in Hw.
  - split; [by rewrite Hw|]. rewrite Hr.
    assert (out.1.1.1 = None) as Hnil by (vm_compute; reflexivity).
    by rewrite <-Hr.
Defined.

Lemma syncLB_backend_error_witness :
  let c := Sample.cluster [Sample.blue] [] [] in
  let out := run Sample.handle (Update (Sample.service ∅ ∅) "blue") c in
  backend_answers out.2 = [(None, Some (Foreign NoService "no service found"))]
  ∧ out.1.1.1 = Some (Foreign NoService "no service found")
  ∧ written out.2 = [].
Proof.
  intros c out.
  assert (backend_answers out.2 = [(None, Some (Foreign NoService "no service found"))])
    as Hb by (vm_compute; reflexivity).
  destruct (syncLB_backend_error Sample.handle (Sample.service ∅ ∅) "blue" None true c
              out.1.1 out.1.2 out.2 _ _ (triple_eta out) Hb eq_refl) as (Herr & _ & Hw).
  by split_and!.
Defined.

Lemma Create_backend_tolerated_witness :
  let c := Sample.cluster [Sample.blue] [] [] in
  let o := Sample.opts "pool1" "" ∅ in
  let out := run Sample.handle (Create (Sample.service ∅ ∅) "blue" o) c in
  backend_answers out.2 = [(None, Some (Foreign NoService "no service found"))]
  ∧ length (updates out.2) = 1.
Proof.
  intros c o out.
  assert (backend_answers out.2 = [(None, Some (Foreign NoService "no service found"))])
    as Hb by (vm_compute; reflexivity).
  split; [exact Hb|].
  apply (Create_backend_tolerated Sample.handle (Sample.service ∅ ∅) "blue" o c
           out.1.1 out.1.2 out.2 None (Foreign NoService "no service found")
           (<["router.tsuru.io/opts-pool" := "pool1"]>
              (<["router.tsuru.io/opts-exposed-port" := ""]> ∅))
           (triple_eta out) Hb); [reflexivity|reflexivity|].
  vm_compute. reflexivity.
Defined.

Lemma Update_bad_annotations_witness :
  let c := Sample.cluster [Strict.invalid] [("blue", Sample.web)] [] in
  let out := run Sample.handle (@Update Strict.externals (Sample.service ∅ ∅) "blue") c in
  fetched out.2 = [Strict.invalid]
  ∧ out.1.1.1 = Some (Foreign OtherFailure "unexpected end of input")
  ∧ backend_answers out.2 = []
  ∧ written out.2 = [].
Proof.
  intros c out.
  assert (fetched out.2 = [Strict.invalid]) as Hf by (vm_compute; reflexivity).
  destruct (@Update_bad_annotations Strict.externals _ Sample.handle (Sample.service ∅ ∅)
              "blue" c out.1.1 out.1.2 out.2 Strict.invalid
              (Foreign OtherFailure "unexpected end of input") (triple_eta out) Hf)
    as (Herr & Hb & Hw); [by vm_compute|by vm_compute|].
  by split_and!.
Defined.

Lemma Remove_swapped_witness :
  let c := Sample.cluster [Sample.swapped] [] [] in
  let out := drun SampleRemoval.handle (Remove "blue") c in
  fetched (plain out.2) = [Sample.swapped]
  ∧ out.1.1 = Some (ErrAppSwapped "blue" "green")
  ∧ deletions out.2 = [].
Proof.
  intros c out.
  assert (fetched (plain out.2) = [Sample.swapped]) as Hf by (vm_compute; reflexivity).
  destruct (Remove_swapped SampleRemoval.handle "blue" c out.1.1 out.1.2 out.2
              Sample.swapped "green" (triple_eta out) Hf) as (Herr & Hd & _);
    [by vm_compute|].
  by split_and!.
Defined.

Lemma Remove_nil_witness :
  let c := Sample.cluster [Sample.blue] [] [] in
  let out := drun SampleRemoval.handle (Remove "blue") c in
  out.1.1 = None
  ∧ deletions out.2 = [("default", "blue-router-lb", None)]
  ∧ Sample.objects out.1.2 = ∅.
Proof.
  intros c out.
  assert (out.1.1 = None) as Hnil by (vm_compute; reflexivity).
  assert (drun SampleRemoval.handle (Remove "blue") c = (None, out.1.2, out.2)) as Hrun.
  { rewrite <-Hnil. apply triple_eta. }
  destruct (Remove_nil SampleRemoval.handle "blue" c out.1.2 out.2 Hrun)
    as [[_ Hd]|(svc & ns & r & _ & _ & Hd & _)].
  - by vm_compute in Hd.
  - split_and!; [exact Hnil|by vm_compute|by vm_compute].
Defined.

Lemma Remove_deletes_once_witness :
  let c := Sample.cluster [Sample.blue] [] [Some Sample.conflict] in
  let out := drun SampleRemoval.handle (Remove "blue") c in
  written (plain out.2) = []
  ∧ length (deletions out.2) ≤ 1
  ∧ out.1.1 = Some (Failed Sample.conflict).
Proof.
  intros c out.
  destruct (Remove_deletes_once SampleRemoval.handle "blue" c out.1.1 out.1.2 out.2
              (triple_eta out)) as (Hw & Hlen & Hdel).
  split_and!; [exact Hw|exact Hlen|].
  destruct (Hdel "default" "blue-router-lb" (Some Sample.conflict)) as (_ & _ & ->).
  { vm_compute. left. }
  reflexivity.
Defined.
